(** * The interpreter example: parser and evaluator of [value (op value)*]

    A shallow embedding of the Go listing of the interpreter pattern
    ([Node], [ValNode], [AddNode], [MinNode], [Parser]) together with the
    two standard-library functions it calls, [strings.Split] and
    [strconv.Atoi].  Go's [int] is taken at 64 bits. *)

From Stdlib Require Import ZArith List String Ascii Bool Arith Lia.
Import ListNotations.

Local Open Scope Z_scope.

(** ** Go's [int]: 64-bit two's complement *)

Definition int_min : Z := - 2 ^ 63.
Definition int_max : Z := 2 ^ 63 - 1.

Definition in_int (z : Z) : Prop := int_min <= z <= int_max.

(** The value an exact result takes once stored in an [int]. *)
Definition wrap (z : Z) : Z := (z + 2 ^ 63) mod 2 ^ 64 - 2 ^ 63.

Definition int_add (a b : Z) : Z := wrap (a + b).
Definition int_sub (a b : Z) : Z := wrap (a - b).

(** ** Run-time panics and the error monad that threads them *)

Inductive panic : Type :=
| index_out_of_range
| nil_dereference.

Inductive result (A : Type) : Type :=
| Ok (a : A)
| Panicked (e : panic).

Arguments Ok {A} a.
Arguments Panicked {A} e.

Definition bind {A B : Type} (m : result A) (k : A -> result B) : result B :=
  match m with
  | Ok a => k a
  | Panicked e => Panicked e
  end.

Notation "x <- m ;; k" := (bind m (fun x => k))
  (at level 61, m at next level, right associativity).
Notation "' pat <- m ;; k" := (bind m (fun x => match x with pat => k end))
  (at level 61, pat pattern, m at next level, right associativity).

(** ** [strconv.Atoi]

    [Atoi s] is [ParseInt(s, 10, 0)] with the result converted to [int]
    (its fast path for short strings computes the same pair).  The pair is
    the returned value and the returned error. *)

Inductive NumError : Type :=
| ErrSyntax
| ErrRange.

Definition is_digit (c : ascii) : bool :=
  (48 <=? nat_of_ascii c)%nat && (nat_of_ascii c <=? 57)%nat.

Definition digit_val (c : ascii) : Z := Z.of_nat (nat_of_ascii c) - 48.

Definition maxVal : Z := 2 ^ 64 - 1.
Definition uint_cutoff : Z := maxVal / 10 + 1.

(** The digit loop of [ParseUint(s, 10, 64)], [n] the value so far. *)
Fixpoint ParseUint_loop (s : string) (n : Z) : Z * option NumError :=
  match s with
  | EmptyString => (n, None)
  | String c s' =>
      if is_digit c then
        if uint_cutoff <=? n then (maxVal, Some ErrRange)
        else
          let n1 := n * 10 + digit_val c in
          if maxVal <? n1 then (maxVal, Some ErrRange)
          else ParseUint_loop s' n1
      else (0, Some ErrSyntax)
  end.

Definition ParseUint (s : string) : Z * option NumError :=
  match s with
  | EmptyString => (0, Some ErrSyntax)
  | _ => ParseUint_loop s 0
  end.

Definition int_cutoff : Z := 2 ^ 63.

Definition ParseInt (s : string) : Z * option NumError :=
  match s with
  | EmptyString => (0, Some ErrSyntax)
  | String c rest =>
      let neg := Ascii.eqb c "-" in
      let body := if Ascii.eqb c "+" then rest
                  else if Ascii.eqb c "-" then rest else s in
      match ParseUint body with
      | (_, Some ErrSyntax) => (0, Some ErrSyntax)
      | (un, _) =>
          if negb neg && (int_cutoff <=? un) then (int_cutoff - 1, Some ErrRange)
          else if neg && (int_cutoff <? un) then (- int_cutoff, Some ErrRange)
          else (if neg then - un else un, None)
      end
  end.

Definition Atoi (s : string) : Z * option NumError := ParseInt s.

(** ** [strings.Split] with a one-byte separator

    The substrings between the occurrences of [sep]; a string without
    [sep] (the empty string too) gives one segment. *)
Fixpoint Split (s : string) (sep : ascii) : list string :=
  match s with
  | EmptyString => [EmptyString]
  | String c s' =>
      if Ascii.eqb c sep then EmptyString :: Split s' sep
      else match Split s' sep with
           | [] => [String c EmptyString]
           | seg :: segs => String c seg :: segs
           end
  end.

(** ** Nodes

    A [Node] is an interface value: [nil_Node] is the nil interface, the
    zero value of the fields [left], [right] and [prev]. *)

Inductive Node : Type :=
| nil_Node
| ValNode (val : Z)
| AddNode (left right : Node)
| MinNode (left right : Node).

(** A method call on the nil interface panics; the operands are evaluated
    left first. *)
Fixpoint Interpret (n : Node) : result Z :=
  match n with
  | nil_Node => Panicked nil_dereference
  | ValNode val => Ok val
  | AddNode l r =>
      a <- Interpret l ;; b <- Interpret r ;; Ok (int_add a b)
  | MinNode l r =>
      a <- Interpret l ;; b <- Interpret r ;; Ok (int_sub a b)
  end.

(** ** Parser

    [index] starts at 0 and is only ever incremented, at most once past
    [len(exp)], so it is kept as a [nat]. *)

Record Parser : Type := mkParser {
  exp : list string;
  index : nat;
  prev : Node
}.

Definition set_exp (p : Parser) (e : list string) : Parser :=
  {| exp := e; index := index p; prev := prev p |}.
Definition set_index (p : Parser) (i : nat) : Parser :=
  {| exp := exp p; index := i; prev := prev p |}.
Definition set_prev (p : Parser) (n : Node) : Parser :=
  {| exp := exp p; index := index p; prev := n |}.

(** [&Parser{}] *)
Definition new_Parser : Parser := {| exp := []; index := 0; prev := nil_Node |}.

(** [p.exp[p.index]] *)
Definition exp_at (p : Parser) : result string :=
  match nth_error (exp p) (index p) with
  | Some s => Ok s
  | None => Panicked index_out_of_range
  end.

(** The error of [Atoi] is dropped: [v, _ := strconv.Atoi(...)]. *)
Definition newValNode (p : Parser) : result (Node * Parser) :=
  s <- exp_at p ;;
  let v := fst (Atoi s) in
  let p := set_index p (S (index p)) in
  Ok (ValNode v, p).

Definition newAddNode (p : Parser) : result (Node * Parser) :=
  let p := set_index p (S (index p)) in
  let l := prev p in
  '(r, p) <- newValNode p ;;
  Ok (AddNode l r, p).

Definition newMinNode (p : Parser) : result (Node * Parser) :=
  let p := set_index p (S (index p)) in
  let l := prev p in
  '(r, p) <- newValNode p ;;
  Ok (MinNode l r, p).

(** One pass through the body of the [for] loop of [Parse], entered with
    [p.index < len(p.exp)]. *)
Definition Parse_body (p : Parser) : result Parser :=
  tok <- exp_at p ;;
  if String.eqb tok "+" then
    '(n, p) <- newAddNode p ;; Ok (set_prev p n)
  else if String.eqb tok "-" then
    '(n, p) <- newMinNode p ;; Ok (set_prev p n)
  else
    '(n, p) <- newValNode p ;; Ok (set_prev p n).

(** The [for] loop; [None] when [fuel] iterations were not enough. *)
Fixpoint Parse_loop (fuel : nat) (p : Parser) : option (result Parser) :=
  if (List.length (exp p) <=? index p)%nat then Some (Ok p)
  else
    match fuel with
    | O => None
    | S fuel' =>
        match Parse_body p with
        | Ok p' => Parse_loop fuel' p'
        | Panicked e => Some (Panicked e)
        end
    end.

(** [p.Parse(exp)]: one iteration per segment is enough fuel
    (see [Parse_loop_terminates]). *)
Definition Parse (p : Parser) (e : string) : option (result Parser) :=
  let p := set_exp p (Split e " ") in
  Parse_loop (List.length (exp p)) p.

(** Parse with a new parser and interpret the node it is left with. *)
Definition run (e : string) : option (result Z) :=
  match Parse new_Parser e with
  | Some (Ok p) => Some (Interpret (prev p))
  | Some (Panicked err) => Some (Panicked err)
  | None => None
  end.

(** ** The vocabulary of the specification *)

Inductive OperatorKind : Type :=
| OpAdd
| OpMin.

Definition symbol (o : OperatorKind) : string :=
  match o with
  | OpAdd => "+"
  | OpMin => "-"
  end.

Definition BinaryOpNode (o : OperatorKind) (l r : Node) : Node :=
  match o with
  | OpAdd => AddNode l r
  | OpMin => MinNode l r
  end.

Definition apply_op (o : OperatorKind) (a b : Z) : Z :=
  match o with
  | OpAdd => int_add a b
  | OpMin => int_sub a b
  end.

(** The number a run of decimal digits denotes, [acc] the digits before. *)
Fixpoint digits_value (s : string) (acc : Z) : option Z :=
  match s with
  | EmptyString => Some acc
  | String c s' =>
      if is_digit c then digits_value s' (acc * 10 + digit_val c) else None
  end.

(** The number an optionally signed base-10 literal denotes; [None] when
    the string is no such literal. *)
Definition literal_value (s : string) : option Z :=
  match s with
  | EmptyString => None
  | String c rest =>
      if Ascii.eqb c "-" then
        match rest with
        | EmptyString => None
        | _ => option_map Z.opp (digits_value rest 0)
        end
      else if Ascii.eqb c "+" then
        match rest with
        | EmptyString => None
        | _ => digits_value rest 0
        end
      else digits_value s 0
  end.

(** A value token: a literal whose number fits an [int]. *)
Definition value_token (s : string) (v : Z) : Prop :=
  literal_value s = Some v /\ in_int v.

(** A well-formed expression [v1 op1 v2 ... opN v(N+1)] is given by the
    literal [v1] and the list of the pairs [(op_i, v_(i+1))]. *)
Definition wf_tail (rest : list (OperatorKind * string))
                   (vals : list (OperatorKind * Z)) : Prop :=
  Forall2 (fun x y => fst x = fst y /\ value_token (snd x) (snd y)) rest vals.

(** Its text, with single spaces between the tokens ... *)
Fixpoint tail_string (rest : list (OperatorKind * string)) : string :=
  match rest with
  | [] => EmptyString
  | (o, l) :: rest' =>
      String " " (symbol o ++ String " " (l ++ tail_string rest'))%string
  end.

Definition expression (l1 : string) (rest : list (OperatorKind * string)) : string :=
  (l1 ++ tail_string rest)%string.

(** ... and its tokens. *)
Fixpoint tail_tokens (rest : list (OperatorKind * string)) : list string :=
  match rest with
  | [] => []
  | (o, l) :: rest' => symbol o :: l :: tail_tokens rest'
  end.

(** The strict left-to-right fold [(...((v1 op1 v2) op2 v3) ... opN v(N+1))]. *)
Definition left_fold (v1 : Z) (vals : list (OperatorKind * Z)) : Z :=
  fold_left (fun acc x => apply_op (fst x) acc (snd x)) vals v1.

(** The same fold in exact integers. *)
Definition exact_op (o : OperatorKind) (a b : Z) : Z :=
  match o with
  | OpAdd => a + b
  | OpMin => a - b
  end.

Definition exact_fold (v1 : Z) (vals : list (OperatorKind * Z)) : Z :=
  fold_left (fun acc x => exact_op (fst x) acc (snd x)) vals v1.

(** The chain of operator nodes that folds [vals] onto the subtree [t]. *)
Definition chain (t : Node) (vals : list (OperatorKind * Z)) : Node :=
  fold_left (fun l x => BinaryOpNode (fst x) l (ValNode (snd x))) vals t.

(** ** Measures and shapes of trees *)

Fixpoint count_binop (n : Node) : nat :=
  match n with
  | AddNode l r | MinNode l r => S (count_binop l + count_binop r)
  | _ => 0
  end.

Fixpoint count_val (n : Node) : nat :=
  match n with
  | ValNode _ => 1
  | AddNode l r | MinNode l r => count_val l + count_val r
  | nil_Node => 0
  end.

Definition is_val (n : Node) : bool :=
  match n with
  | ValNode _ => true
  | _ => false
  end.

Definition is_binop (n : Node) : bool :=
  match n with
  | AddNode _ _ | MinNode _ _ => true
  | _ => false
  end.

(** [P left right] at every operator node of the tree. *)
Fixpoint every_binop (P : Node -> Node -> bool) (n : Node) : bool :=
  match n with
  | AddNode l r | MinNode l r => P l r && every_binop P l && every_binop P r
  | _ => true
  end.

(** Right child a value node, left child a value node or an operator node. *)
Definition chain_children (l r : Node) : bool :=
  is_val r && (is_val l || is_binop l).

Fixpoint nil_free (n : Node) : bool :=
  match n with
  | nil_Node => false
  | ValNode _ => true
  | AddNode l r | MinNode l r => nil_free l && nil_free r
  end.

(** ** The loop read off the list of the remaining tokens

    What [Parse_loop] leaves in [prev], by recursion on the tokens from
    [index] on (see [Parse_loop_tokens]). *)
Fixpoint parse_tokens (t : Node) (toks : list string) : result Node :=
  match toks with
  | [] => Ok t
  | tok :: toks' =>
      if String.eqb tok "+" then
        match toks' with
        | [] => Panicked index_out_of_range
        | v :: toks'' => parse_tokens (AddNode t (ValNode (fst (Atoi v)))) toks''
        end
      else if String.eqb tok "-" then
        match toks' with
        | [] => Panicked index_out_of_range
        | v :: toks'' => parse_tokens (MinNode t (ValNode (fst (Atoi v)))) toks''
        end
      else parse_tokens (ValNode (fst (Atoi tok))) toks'
  end.

(** The state in which the loop returns. *)
Definition returned (p : Parser) (t : Node) : Parser :=
  {| exp := exp p; index := Nat.max (index p) (List.length (exp p)); prev := t |}.

Fixpoint no_space (s : string) : bool :=
  match s with
  | EmptyString => true
  | String c s' => negb (Ascii.eqb c " ") && no_space s'
  end.

Definition is_operator (s : string) : bool :=
  String.eqb s "+" || String.eqb s "-".

(** The pairs of a tail with every literal put through [Atoi], its error
    dropped as [newValNode] drops it. *)
Definition converted (rest : list (OperatorKind * string)) : list (OperatorKind * Z) :=
  map (fun x => (fst x, fst (Atoi (snd x)))) rest.

Definition spaceless (rest : list (OperatorKind * string)) : Prop :=
  Forall (fun x => no_space (snd x) = true) rest.

(** The exact intermediate results of the fold, left to right. *)
Fixpoint partials (a : Z) (vals : list (OperatorKind * Z)) : list Z :=
  match vals with
  | [] => []
  | x :: vals' =>
      let b := exact_op (fst x) a (snd x) in b :: partials b vals'
  end.

(** The tokens as the specification's grammar counts them, separated by
    one or more spaces: the segments between spaces that are not empty. *)
Definition whitespace_tokens (e : string) : list string :=
  filter (fun seg => negb (String.eqb seg EmptyString)) (Split e " ").

(** The right child is a value node. *)
Definition right_is_val (l r : Node) : bool := is_val r.

(** Number of nodes of a tree. *)
Definition count_nodes (n : Node) : nat := (count_binop n + count_val n)%nat.

(** ** The further examples of the listing

    The listing goes on with more node kinds for the interpreter and with
    three more small interpreters.  Their panics are of other kinds than
    those of the parser, so they get an outcome type with the panic as a
    parameter. *)

Inductive outcome (E A : Type) : Type :=
| Done (a : A)
| Panics (e : E).

Arguments Done {E A} a.
Arguments Panics {E A} e.

Definition obind {E A B : Type} (m : outcome E A) (k : A -> outcome E B) : outcome E B :=
  match m with
  | Done a => k a
  | Panics e => Panics e
  end.

Notation "x <~ m ;; k" := (obind m (fun x => k))
  (at level 61, m at next level, right associativity).
Notation "' pat <~ m ;; k" := (obind m (fun x => match x with pat => k end))
  (at level 61, pat pattern, m at next level, right associativity).

(** *** The extended calculator: [MulNode] and [DivNode]

    All the node kinds that implement [Node] there, and nil. *)
Module Calc.

Inductive panic : Type :=
| nil_dereference
| integer_divide_by_zero.

Definition int_mul (a b : Z) : Z := wrap (a * b).

(** [a / b] on [int]: truncated toward zero; a zero divisor panics; the
    one quotient out of range, of the least [int] by -1, wraps. *)
Definition int_quo (a b : Z) : outcome panic Z :=
  if b =? 0 then Panics integer_divide_by_zero
  else Done (wrap (Z.quot a b)).

Inductive Node : Type :=
| nil_Node
| ValNode (val : Z)
| AddNode (left right : Node)
| MinNode (left right : Node)
| MulNode (left right : Node)
| DivNode (left right : Node).

Fixpoint Interpret (n : Node) : outcome panic Z :=
  match n with
  | nil_Node => Panics nil_dereference
  | ValNode val => Done val
  | AddNode l r =>
      a <~ Interpret l ;; b <~ Interpret r ;; Done (int_add a b)
  | MinNode l r =>
      a <~ Interpret l ;; b <~ Interpret r ;; Done (int_sub a b)
  | MulNode l r =>
      a <~ Interpret l ;; b <~ Interpret r ;; Done (int_mul a b)
  | DivNode l r =>
      z <~ Interpret r ;;
      if z =? 0 then Done 0
      else a <~ Interpret l ;; b <~ Interpret r ;; int_quo a b
  end.

Fixpoint nil_free (n : Node) : bool :=
  match n with
  | nil_Node => false
  | ValNode _ => true
  | AddNode l r | MinNode l r | MulNode l r | DivNode l r =>
      nil_free l && nil_free r
  end.

End Calc.

(** The trees of the parser among those of the extended calculator. *)
Fixpoint to_Calc (n : Node) : Calc.Node :=
  match n with
  | nil_Node => Calc.nil_Node
  | ValNode val => Calc.ValNode val
  | AddNode l r => Calc.AddNode (to_Calc l) (to_Calc r)
  | MinNode l r => Calc.MinNode (to_Calc l) (to_Calc r)
  end.

(** *** The boolean expressions: [BoolNode] *)
Module Boolean.

Inductive BoolNode : Type :=
| nil_BoolNode
| TrueNode
| FalseNode
| AndNode (left right : BoolNode)
| OrNode (left right : BoolNode).

(** [&&] and [||] evaluate their right operand only when the left one
    does not decide. *)
Fixpoint Interpret (n : BoolNode) : result bool :=
  match n with
  | nil_BoolNode => Panicked nil_dereference
  | TrueNode => Ok true
  | FalseNode => Ok false
  | AndNode l r => a <- Interpret l ;; if a then Interpret r else Ok false
  | OrNode l r => a <- Interpret l ;; if a then Ok true else Interpret r
  end.

Fixpoint nil_free (n : BoolNode) : bool :=
  match n with
  | nil_BoolNode => false
  | TrueNode | FalseNode => true
  | AndNode l r | OrNode l r => nil_free l && nil_free r
  end.

(** The truth value of the formula a tree stands for. *)
Fixpoint truth (n : BoolNode) : bool :=
  match n with
  | nil_BoolNode => false
  | TrueNode => true
  | FalseNode => false
  | AndNode l r => truth l && truth r
  | OrNode l r => truth l || truth r
  end.

End Boolean.

(** *** Values of type [interface{}] and maps [map[string]interface{}]

    A value is the nil interface, a slice [[]interface{}] of values, or
    anything else: an [atom], of a type left open.  A map is read by key;
    [None] is a key that is not there, which is not the same as a key
    bound to nil. *)
#[warnings="-register-all"]
Inductive value (atom : Type) : Type :=
| VNil
| VAtom (a : atom)
| VList (items : list (value atom)).

Arguments VNil {atom}.
Arguments VAtom {atom} a.
Arguments VList {atom} items.

Definition GoMap (atom : Type) : Type := string -> option (value atom).

(** [m[k] = v] *)
Definition map_set {atom : Type} (m : GoMap atom) (k : string) (v : value atom)
  : GoMap atom :=
  fun k' => if String.eqb k' k then Some v else m k'.

(** [m[k]] as an expression: nil for a key that is not there. *)
Definition map_get {atom : Type} (m : GoMap atom) (k : string) : value atom :=
  match m k with
  | Some v => v
  | None => VNil
  end.

(** *** The template engine: [TemplateNode] *)
Module Template.

Inductive panic : Type :=
| nil_dereference
| interface_conversion.

Inductive TemplateNode : Type :=
| nil_TemplateNode
| TextNode (text : string)
| VariableNode (name : string)
| ForNode (variable list : string) (body : TemplateNode).

Section Render.

Variable atom : Type.

(** [fmt.Sprintf("%v", value)] *)
Variable fmt_v : value atom -> string.

(** The [for ... range list] of [ForNode.Render]: [result] is the
    builder, [render_body] the call [n.body.Render]. *)
Fixpoint ForNode_loop
         (render_body : GoMap atom -> outcome panic (string * GoMap atom))
         (variable : string) (items : list (value atom))
         (data : GoMap atom) (result : string)
  : outcome panic (string * GoMap atom) :=
  match items with
  | [] => Done (result, data)
  | item :: items' =>
      let data := map_set data variable item in
      ' (s, data) <~ render_body data ;;
      ForNode_loop render_body variable items' data (result ++ s)%string
  end.

(** [Render] writes to the map it is given, so it returns the map
    beside the string.  A nil map reads as the empty one, and on it
    [ForNode.Render] panics at the type assertion, before any write. *)
Fixpoint Render (n : TemplateNode) (data : GoMap atom)
  : outcome panic (string * GoMap atom) :=
  match n with
  | nil_TemplateNode => Panics nil_dereference
  | TextNode text => Done (text, data)
  | VariableNode name =>
      match data name with
      | Some v => Done (fmt_v v, data)
      | None => Done (EmptyString, data)
      end
  | ForNode variable list body =>
      match map_get data list with
      | VList items =>
          ForNode_loop (Render body) variable items data EmptyString
      | _ => Panics interface_conversion
      end
  end.

(** What a node without a loop renders, read off the map. *)
Definition plain_text (n : TemplateNode) (data : GoMap atom) : string :=
  match n with
  | TextNode text => text
  | VariableNode name =>
      match data name with
      | Some v => fmt_v v
      | None => EmptyString
      end
  | _ => EmptyString
  end.

End Render.

Arguments Render {atom} fmt_v n data.
Arguments plain_text {atom} fmt_v n data.
Arguments ForNode_loop {atom} render_body variable items data result.

Definition is_plain (n : TemplateNode) : bool :=
  match n with
  | TextNode _ | VariableNode _ => true
  | _ => false
  end.

(** All the strings of a list, one after the other. *)
Definition join_all (l : list string) : string :=
  fold_right String.append EmptyString l.

End Template.

(** *** The rule engine: [Rule] *)
Module Rules.

Inductive panic : Type :=
| nil_dereference
| uncomparable.

Section Evaluate.

Variable atom : Type.

(** [==] on two values that are not slices; [None] where Go
    panics, the two being of one type that cannot be compared. *)
Variable atom_eq : atom -> atom -> option bool.

Inductive Rule : Type :=
| nil_Rule
| EqualRule (field : string) (val : value atom)
| AndRule (left right : Rule)
| OrRule (left right : Rule).

(** [x == y] on interfaces: two slices cannot be compared; nil equals
    nil only. *)
Definition interface_eq (x y : value atom) : outcome panic bool :=
  match x, y with
  | VNil, VNil => Done true
  | VAtom a, VAtom b =>
      match atom_eq a b with
      | Some c => Done c
      | None => Panics uncomparable
      end
  | VList _, VList _ => Panics uncomparable
  | _, _ => Done false
  end.

Fixpoint Evaluate (r : Rule) (ctx : GoMap atom) : outcome panic bool :=
  match r with
  | nil_Rule => Panics nil_dereference
  | EqualRule field val => interface_eq (map_get ctx field) val
  | AndRule l r =>
      a <~ Evaluate l ctx ;; if a then Evaluate r ctx else Done false
  | OrRule l r =>
      a <~ Evaluate l ctx ;; if a then Done true else Evaluate r ctx
  end.

End Evaluate.

Arguments nil_Rule {atom}.
Arguments EqualRule {atom} field val.
Arguments AndRule {atom} left right.
Arguments OrRule {atom} left right.
Arguments Evaluate {atom} atom_eq r ctx.

End Rules.

(** [map[string]interface{}{}] *)
Definition empty_map {atom : Type} : GoMap atom := fun _ => None.

(** * Properties *)

(** ** [int] arithmetic *)

Lemma wrap_in_int (z : Z) : in_int z -> wrap z = z.
Proof.
  unfold in_int, int_min, int_max, wrap. intros H.
  rewrite Z.mod_small by lia. lia.
Qed.

Lemma wrap_range (z : Z) : in_int (wrap z).
Proof.
  unfold in_int, int_min, int_max, wrap.
  pose proof (Z.mod_pos_bound (z + 2 ^ 63) (2 ^ 64) ltac:(lia)). lia.
Qed.

(** ** [Atoi] against the value of a literal *)

Lemma digit_val_range (c : ascii) : is_digit c = true -> 0 <= digit_val c <= 9.
Proof.
  unfold is_digit, digit_val. intros H.
  apply andb_true_iff in H. destruct H as [H1 H2].
  apply Nat.leb_le in H1. apply Nat.leb_le in H2. lia.
Qed.

Lemma digits_value_ge (s : string) :
  forall n u, 0 <= n -> digits_value s n = Some u -> n <= u.
Proof.
  induction s as [|c s IH]; simpl; intros n u Hn H.
  - injection H as <-. lia.
  - destruct (is_digit c) eqn:Hc; [|discriminate].
    pose proof (digit_val_range c Hc).
    apply IH in H; lia.
Qed.

Lemma ParseUint_loop_exact (s : string) :
  forall n u, 0 <= n -> digits_value s n = Some u -> u <= maxVal ->
              ParseUint_loop s n = (u, None).
Proof.
  induction s as [|c s IH]; simpl; intros n u Hn H Hu.
  - injection H as <-. reflexivity.
  - destruct (is_digit c) eqn:Hc; [|discriminate].
    pose proof (digit_val_range c Hc) as Hd.
    pose proof (digits_value_ge s (n * 10 + digit_val c) u ltac:(lia) H) as Hge.
    assert (Hcut : n < uint_cutoff).
    { unfold uint_cutoff, maxVal in *.
      change (2 ^ 64 - 1) with 18446744073709551615 in *.
      change (18446744073709551615 / 10 + 1) with 1844674407370955162. lia. }
    destruct (Z.leb_spec uint_cutoff n); [lia|].
    destruct (Z.ltb_spec maxVal (n * 10 + digit_val c)); [lia|].
    apply IH; [lia|assumption|assumption].
Qed.

Lemma ParseUint_exact (s : string) (u : Z) :
  s <> EmptyString -> digits_value s 0 = Some u -> u <= maxVal ->
  ParseUint s = (u, None).
Proof.
  intros Hs H Hu. destruct s; [congruence|].
  apply ParseUint_loop_exact; [lia|assumption|assumption].
Qed.

Lemma ParseUint_loop_sound (s : string) :
  forall n u, ParseUint_loop s n = (u, None) -> digits_value s n = Some u.
Proof.
  induction s as [|c s IH]; simpl; intros n u H.
  - congruence.
  - destruct (is_digit c); [|discriminate].
    destruct (uint_cutoff <=? n); [discriminate|].
    destruct (maxVal <? n * 10 + digit_val c); [discriminate|].
    apply IH, H.
Qed.

Lemma ParseUint_range (s : string) (u : Z) :
  ParseUint s = (u, Some ErrRange) -> u = maxVal.
Proof.
  assert (H : forall s n u, ParseUint_loop s n = (u, Some ErrRange) -> u = maxVal).
  { clear. induction s as [|c s IH]; simpl; intros n u H; [discriminate|].
    destruct (is_digit c); [|discriminate].
    destruct (uint_cutoff <=? n); [congruence|].
    destruct (maxVal <? n * 10 + digit_val c); [congruence|].
    eapply IH, H. }
  destruct s; [discriminate|]. apply H.
Qed.

(** A value token is converted without error, to the number it denotes. *)
Lemma Atoi_value_token (s : string) (v : Z) :
  value_token s v -> Atoi s = (v, None).
Proof.
  unfold value_token, in_int, int_min, int_max, Atoi, ParseInt, literal_value.
  intros [H Hv]. destruct s as [|c rest]; [discriminate|].
  assert (Hm : 2 ^ 63 <= maxVal) by (unfold maxVal; lia).
  destruct (Ascii.eqb_spec c "-") as [->|Hminus]; simpl.
  - destruct (digits_value rest 0) as [u|] eqn:Hu;
      [|destruct rest; discriminate].
    assert (v = - u) by (destruct rest; simpl in H; congruence). subst v.
    rewrite (ParseUint_exact rest u); [..|assumption|lia].
    + unfold int_cutoff. destruct (Z.ltb_spec (2 ^ 63) u); [lia|reflexivity].
    + intros ->. discriminate.
  - destruct (Ascii.eqb_spec c "+") as [->|Hplus].
    + assert (Hu : digits_value rest 0 = Some v) by (destruct rest; congruence).
      rewrite (ParseUint_exact rest v); [..|assumption|lia].
      * unfold int_cutoff. destruct (Z.leb_spec (2 ^ 63) v); [lia|reflexivity].
      * intros ->. discriminate.
    + rewrite (ParseUint_exact (String c rest) v); [..|assumption|lia].
      * unfold int_cutoff. destruct (Z.leb_spec (2 ^ 63) v); [lia|reflexivity].
      * discriminate.
Qed.

Lemma ParseUint_no_error (s : string) (u : Z) :
  ParseUint s = (u, None) ->
  s <> EmptyString /\ digits_value s 0 = Some u /\ 0 <= u.
Proof.
  destruct s as [|c s]; [discriminate|].
  unfold ParseUint. intros H. apply ParseUint_loop_sound in H.
  repeat split; [discriminate|exact H|].
  apply (digits_value_ge (String c s) 0 u); [lia|exact H].
Qed.

Lemma ParseInt_tail (neg : bool) (un v : Z) (e : option NumError) (body : string) :
  ParseUint body = (un, e) ->
  match e with
  | Some ErrSyntax => (0, Some ErrSyntax)
  | _ =>
      if negb neg && (int_cutoff <=? un) then (int_cutoff - 1, Some ErrRange)
      else if neg && (int_cutoff <? un) then (- int_cutoff, Some ErrRange)
      else (if neg then - un else un, None)
  end = (v, None) ->
  body <> EmptyString /\ digits_value body 0 = Some un /\
  v = (if neg then - un else un) /\ in_int v.
Proof.
  intros HP. destruct e as [[]|]; [discriminate| |].
  - apply ParseUint_range in HP. subst un. destruct neg; discriminate.
  - apply ParseUint_no_error in HP. destruct HP as (Hne & Hd & H0).
    unfold int_cutoff, in_int, int_min, int_max.
    destruct neg; cbn [negb andb].
    + destruct (Z.ltb_spec (2 ^ 63) un); [discriminate|].
      intros [= <-]. repeat split; try assumption; lia.
    + destruct (Z.leb_spec (2 ^ 63) un); [discriminate|].
      intros [= <-]. repeat split; try assumption; lia.
Qed.

(** Conversely [Atoi] reports no error on value tokens only. *)
Lemma Atoi_no_error (s : string) (v : Z) :
  Atoi s = (v, None) -> value_token s v.
Proof.
  unfold value_token, Atoi, ParseInt, literal_value.
  destruct s as [|c rest]; [discriminate|]. cbv zeta.
  destruct (Ascii.eqb_spec c "-") as [->|Hminus].
  - change (Ascii.eqb "-" "+") with false. cbv iota.
    destruct (ParseUint rest) as [un e] eqn:HP. intros H.
    destruct (ParseInt_tail true un v e rest HP H) as (Hne & Hd & -> & Hv).
    split; [|exact Hv]. rewrite Hd. destruct rest; [congruence|reflexivity].
  - destruct (Ascii.eqb c "+").
    + destruct (ParseUint rest) as [un e] eqn:HP. intros H.
      destruct (ParseInt_tail false un v e rest HP H) as (Hne & Hd & -> & Hv).
      split; [|exact Hv]. destruct rest; [congruence|exact Hd].
    + destruct (ParseUint (String c rest)) as [un e] eqn:HP. intros H.
      destruct (ParseInt_tail false un v e _ HP H) as (Hne & Hd & -> & Hv).
      split; assumption.
Qed.

Lemma digit_not_space (c : ascii) : is_digit c = true -> Ascii.eqb c " " = false.
Proof.
  destruct (Ascii.eqb_spec c " ") as [->|]; [discriminate|reflexivity].
Qed.

Lemma digits_no_space (s : string) :
  forall n u, digits_value s n = Some u -> no_space s = true.
Proof.
  induction s as [|c s IH]; simpl; intros n u H; [reflexivity|].
  destruct (is_digit c) eqn:Hc; [|discriminate].
  rewrite (digit_not_space c Hc). simpl. eapply IH, H.
Qed.

Lemma literal_no_space (s : string) (v : Z) :
  literal_value s = Some v -> no_space s = true.
Proof.
  unfold literal_value. destruct s as [|c rest]; [discriminate|].
  destruct (Ascii.eqb_spec c "-") as [->|Hminus].
  - destruct (digits_value rest 0) as [u|] eqn:Hu;
      [|destruct rest; discriminate].
    intros _. simpl. eapply digits_no_space, Hu.
  - destruct (Ascii.eqb_spec c "+") as [->|Hplus].
    + intros H. simpl. apply (digits_no_space rest 0 v).
      destruct rest; [discriminate|exact H].
    + intros H. eapply digits_no_space, H.
Qed.

Lemma literal_not_operator (s : string) (v : Z) :
  literal_value s = Some v -> is_operator s = false.
Proof.
  unfold is_operator. intros H.
  destruct (String.eqb_spec s "+") as [->|]; [discriminate|].
  destruct (String.eqb_spec s "-") as [->|]; [discriminate|reflexivity].
Qed.

(** ** [Split] *)

Lemma Split_not_nil (s : string) (sep : ascii) : Split s sep <> [].
Proof.
  destruct s as [|c s]; simpl; [discriminate|].
  destruct (Ascii.eqb c sep); [discriminate|].
  destruct (Split s sep); discriminate.
Qed.

(** Every separator ends a segment: also the second of two in a row. *)
Lemma Split_app (a b : string) (sep : ascii) :
  Split (a ++ String sep b) sep = Split a sep ++ Split b sep.
Proof.
  induction a as [|c a IH]; simpl.
  - rewrite Ascii.eqb_refl. reflexivity.
  - rewrite IH. destruct (Ascii.eqb c sep); [reflexivity|].
    destruct (Split a sep) eqn:Ha; [|reflexivity].
    exfalso. exact (Split_not_nil a sep Ha).
Qed.

Lemma Split_no_space (s : string) : no_space s = true -> Split s " " = [s].
Proof.
  induction s as [|c s IH]; simpl; [reflexivity|].
  intros H. apply andb_true_iff in H. destruct H as [Hc Hs].
  apply negb_true_iff in Hc. rewrite Hc, (IH Hs). reflexivity.
Qed.

(** ** The loop and the list of the remaining tokens *)

Lemma skipn_nth_error_Some {A : Type} (l : list A) (i : nat) (x : A) :
  nth_error l i = Some x -> skipn i l = x :: skipn (S i) l.
Proof.
  revert l. induction i as [|i IH]; intros [|y l] H; try discriminate.
  - injection H as ->. reflexivity.
  - apply (IH l H).
Qed.

Lemma skipn_nth_error_None {A : Type} (l : list A) (i : nat) :
  nth_error l i = None -> skipn i l = [].
Proof.
  intros H. apply skipn_all2. apply nth_error_None, H.
Qed.

Lemma bind_returned (e : list string) (i j : nat) (t1 t2 : Node) (m : result Node) :
  Nat.max i (List.length e) = Nat.max j (List.length e) ->
  (t <- m ;; Ok (returned (mkParser e i t1) t)) =
  (t <- m ;; Ok (returned (mkParser e j t2) t)).
Proof.
  intros H. destruct m; [|reflexivity].
  unfold returned. cbn [bind exp index]. rewrite H. reflexivity.
Qed.

Ltac at_token H :=
  match type of H with
  | nth_error ?e ?i = Some _ =>
      rewrite (skipn_nth_error_Some e i _ H)
  | nth_error ?e ?i = None =>
      rewrite (skipn_nth_error_None e i H)
  end.

(** The value branch of the loop body. *)
Lemma newValNode_at (p : Parser) (tok : string) :
  nth_error (exp p) (index p) = Some tok ->
  newValNode p = Ok (ValNode (fst (Atoi tok)), set_index p (S (index p))).
Proof.
  intros H. unfold newValNode, exp_at. rewrite H. reflexivity.
Qed.

Lemma newValNode_end (p : Parser) :
  nth_error (exp p) (index p) = None ->
  newValNode p = Panicked index_out_of_range.
Proof.
  intros H. unfold newValNode, exp_at. rewrite H. reflexivity.
Qed.

(** With one unit of fuel per remaining token the loop returns, and what it
    returns is read off the remaining tokens by [parse_tokens]. *)
Lemma Parse_loop_tokens (fuel : nat) :
  forall p : Parser,
    (List.length (exp p) - index p <= fuel)%nat ->
    Parse_loop fuel p =
    Some (t <- parse_tokens (prev p) (skipn (index p) (exp p)) ;;
          Ok (returned p t)).
Proof.
  assert (Hret : forall (e : list string) (i : nat) (t : Node),
             (List.length e <= i)%nat ->
             Some (Ok (mkParser e i t)) =
             Some (t0 <- parse_tokens t (skipn i e) ;;
                   Ok (returned (mkParser e i t) t0))).
  { intros e i t Hi. rewrite skipn_all2 by exact Hi.
    unfold returned. cbn [parse_tokens bind exp index].
    do 3 f_equal. lia. }
  induction fuel as [|fuel IH]; intros [e i t] Hf;
    cbn [Parse_loop exp index prev] in *;
    destruct (Nat.leb_spec (List.length e) i) as [Hi|Hi];
    try (apply Hret; exact Hi); [lia|].
  destruct (nth_error e i) as [tok|] eqn:Htok;
    [|apply nth_error_None in Htok; lia].
  unfold Parse_body, exp_at. cbn [exp index]. rewrite Htok. cbn [bind].
  at_token Htok. cbn [parse_tokens].
  assert (Hop : forall mk : Node -> Node -> Node,
    match
      ' (n, p) <- (' (r, p) <- newValNode (mkParser e (S i) t) ;;
                   Ok (mk t r, p)) ;; Ok (set_prev p n)
    with
    | Ok p' => Parse_loop fuel p'
    | Panicked err => Some (Panicked err)
    end =
    Some (t1 <- match skipn (S i) e with
                | [] => Panicked index_out_of_range
                | v :: toks'' => parse_tokens (mk t (ValNode (fst (Atoi v)))) toks''
                end ;;
          Ok (returned (mkParser e i t) t1))).
  { intros mk. destruct (nth_error e (S i)) as [v|] eqn:Hv; at_token Hv.
    - rewrite (newValNode_at _ v) by exact Hv.
      assert (S i < List.length e)%nat
        by (apply nth_error_Some; rewrite Hv; discriminate).
      unfold set_prev, set_index. cbn [bind exp index prev].
      rewrite IH by (cbn [exp index]; lia). cbn [exp index prev].
      f_equal. apply bind_returned. lia.
    - rewrite newValNode_end by exact Hv. reflexivity. }
  destruct (String.eqb tok "+"); [exact (Hop AddNode)|].
  destruct (String.eqb tok "-"); [exact (Hop MinNode)|].
  rewrite (newValNode_at _ tok) by exact Htok.
  unfold set_prev, set_index. cbn [bind exp index prev].
  rewrite IH by (cbn [exp index]; lia). cbn [exp index prev].
  f_equal. apply bind_returned. lia.
Qed.

Lemma Parse_new (e : string) :
  Parse new_Parser e =
  Some (t <- parse_tokens nil_Node (Split e " ") ;;
        Ok (mkParser (Split e " ") (List.length (Split e " ")) t)).
Proof.
  unfold Parse. rewrite Parse_loop_tokens by (simpl; lia). simpl.
  reflexivity.
Qed.

(** ** Well-formed chains *)

Lemma symbol_no_space (o : OperatorKind) : no_space (symbol o) = true.
Proof. destruct o; reflexivity. Qed.

Lemma append_empty_r (s : string) : (s ++ EmptyString)%string = s.
Proof.
  induction s as [|c s IH]; simpl; [reflexivity|]. rewrite IH. reflexivity.
Qed.

Lemma append_assoc (a b c : string) :
  ((a ++ b) ++ c)%string = (a ++ (b ++ c))%string.
Proof.
  induction a as [|x a IH]; simpl; [reflexivity|]. rewrite IH. reflexivity.
Qed.

(** Single spaces give back the tokens. *)
Lemma Split_expression (rest : list (OperatorKind * string)) :
  forall l1 : string,
    no_space l1 = true -> spaceless rest ->
    Split (expression l1 rest) " " = l1 :: tail_tokens rest.
Proof.
  unfold expression, spaceless.
  induction rest as [|[o l] rest IH]; intros l1 H1 Hrest; simpl.
  - rewrite append_empty_r. apply Split_no_space, H1.
  - inversion Hrest as [|x xs Hl Hrest']; subst. simpl in Hl.
    rewrite Split_app, Split_app, (Split_no_space l1 H1),
      (Split_no_space _ (symbol_no_space o)), (IH l Hl Hrest').
    reflexivity.
Qed.

(** After an operator the next token is taken as its operand, whatever
    it is. *)
Lemma parse_tokens_tail (rest : list (OperatorKind * string)) :
  forall t : Node,
    parse_tokens t (tail_tokens rest) = Ok (chain t (converted rest)).
Proof.
  induction rest as [|[o l] rest IH]; intros t; [reflexivity|].
  destruct o; simpl; apply IH.
Qed.

Lemma parse_tokens_value (t : Node) (tok : string) (toks : list string) :
  is_operator tok = false ->
  parse_tokens t (tok :: toks) = parse_tokens (ValNode (fst (Atoi tok))) toks.
Proof.
  unfold is_operator. intros H. apply orb_false_iff in H.
  destruct H as [Hp Hm]. simpl. rewrite Hp, Hm. reflexivity.
Qed.

Lemma parse_tokens_operator (t : Node) (o : OperatorKind) (tok : string)
      (toks : list string) :
  parse_tokens t (symbol o :: tok :: toks) =
  parse_tokens (BinaryOpNode o t (ValNode (fst (Atoi tok)))) toks.
Proof. destruct o; reflexivity. Qed.

Lemma converted_wf (rest : list (OperatorKind * string))
      (vals : list (OperatorKind * Z)) :
  wf_tail rest vals -> converted rest = vals.
Proof.
  unfold wf_tail, converted.
  induction 1 as [|[o l] [o' v] rest vals [Ho Hv] _ IH]; [reflexivity|].
  simpl in *. subst o'. rewrite (Atoi_value_token l v Hv), IH. reflexivity.
Qed.

Lemma wf_tail_spaceless (rest : list (OperatorKind * string))
      (vals : list (OperatorKind * Z)) :
  wf_tail rest vals -> spaceless rest.
Proof.
  unfold wf_tail, spaceless.
  induction 1 as [|x y rest vals [_ [Hv _]] _ IH]; constructor; [|exact IH].
  eapply literal_no_space, Hv.
Qed.

Lemma wf_tail_length (rest : list (OperatorKind * string))
      (vals : list (OperatorKind * Z)) :
  wf_tail rest vals -> List.length vals = List.length rest.
Proof.
  intros H. symmetry. eapply Forall2_length, H.
Qed.

(** Any chain whose leading segment is not an operator is accepted and
    built into the left-leaning tree of its converted segments. *)
Lemma Parse_chain (l1 : string) (rest : list (OperatorKind * string)) :
  no_space l1 = true -> is_operator l1 = false -> spaceless rest ->
  Parse new_Parser (expression l1 rest) =
  Some (Ok (mkParser (l1 :: tail_tokens rest)
                     (S (List.length (tail_tokens rest)))
                     (chain (ValNode (fst (Atoi l1))) (converted rest)))).
Proof.
  intros H1 Hop Hrest.
  rewrite Parse_new, (Split_expression rest l1 H1 Hrest).
  rewrite (parse_tokens_value _ _ _ Hop), parse_tokens_tail. reflexivity.
Qed.

Lemma Parse_wf (l1 : string) (v1 : Z) (rest : list (OperatorKind * string))
      (vals : list (OperatorKind * Z)) :
  value_token l1 v1 -> wf_tail rest vals ->
  Parse new_Parser (expression l1 rest) =
  Some (Ok (mkParser (l1 :: tail_tokens rest)
                     (S (List.length (tail_tokens rest)))
                     (chain (ValNode v1) vals))).
Proof.
  intros H1 Hrest.
  rewrite Parse_chain.
  - rewrite (converted_wf rest vals Hrest), (Atoi_value_token l1 v1 H1).
    reflexivity.
  - eapply literal_no_space, H1.
  - eapply literal_not_operator, H1.
  - eapply wf_tail_spaceless, Hrest.
Qed.

(** ** Evaluation and shape of a chain *)

Lemma Interpret_BinaryOpNode (o : OperatorKind) (t : Node) (a v : Z) :
  Interpret t = Ok a ->
  Interpret (BinaryOpNode o t (ValNode v)) = Ok (apply_op o a v).
Proof. intros H. destruct o; simpl; rewrite H; reflexivity. Qed.

Lemma Interpret_chain (vals : list (OperatorKind * Z)) :
  forall (t : Node) (a : Z),
    Interpret t = Ok a -> Interpret (chain t vals) = Ok (left_fold a vals).
Proof.
  unfold chain, left_fold.
  induction vals as [|[o v] vals IH]; intros t a H; simpl; [exact H|].
  apply IH, Interpret_BinaryOpNode, H.
Qed.

Lemma chain_snoc (t : Node) (vals : list (OperatorKind * Z)) (o : OperatorKind) (v : Z) :
  chain t (vals ++ [(o, v)]) = BinaryOpNode o (chain t vals) (ValNode v).
Proof. unfold chain. rewrite fold_left_app. reflexivity. Qed.

Lemma count_binop_chain (vals : list (OperatorKind * Z)) :
  forall t : Node,
    count_binop (chain t vals) = (count_binop t + List.length vals)%nat.
Proof.
  unfold chain. induction vals as [|[o v] vals IH]; intros t; simpl; [lia|].
  rewrite IH. destruct o; simpl; lia.
Qed.

Lemma count_val_chain (vals : list (OperatorKind * Z)) :
  forall t : Node,
    count_val (chain t vals) = (count_val t + List.length vals)%nat.
Proof.
  unfold chain. induction vals as [|[o v] vals IH]; intros t; simpl; [lia|].
  rewrite IH. destruct o; simpl; lia.
Qed.

Lemma every_binop_chain (vals : list (OperatorKind * Z)) :
  forall t : Node,
    every_binop chain_children t = true ->
    is_val t || is_binop t = true ->
    every_binop chain_children (chain t vals) = true.
Proof.
  unfold chain. induction vals as [|[o v] vals IH]; intros t Ht Hk; simpl;
    [exact Ht|].
  apply IH.
  - destruct o; simpl; unfold chain_children at 1; simpl; rewrite Hk, Ht;
      reflexivity.
  - destruct o; reflexivity.
Qed.

(** Where no exact intermediate result leaves the range of [int], the fold
    is the exact one. *)
Lemma left_fold_exact (vals : list (OperatorKind * Z)) :
  forall a : Z,
    Forall in_int (partials a vals) -> left_fold a vals = exact_fold a vals.
Proof.
  unfold left_fold, exact_fold.
  induction vals as [|[o v] vals IH]; intros a H; simpl in *; [reflexivity|].
  inversion H as [|b bs Hb Hbs]; subst.
  replace (apply_op o a v) with (exact_op o a v).
  - apply IH, Hbs.
  - destruct o; simpl in *; unfold int_add, int_sub;
      rewrite wrap_in_int; auto.
Qed.

(** ** The claims on well-formed expressions *)

Ltac value_token_here :=
  split; [reflexivity | unfold in_int, int_min, int_max; lia].

Ltac wf_tail_here :=
  unfold wf_tail;
  repeat (first [ apply Forall2_nil
                | apply Forall2_cons;
                  [cbn [fst snd]; split; [reflexivity | value_token_here] | ] ]).

(** C1: for every well-formed expression [v1 op1 v2 ... opN v(N+1)] (base-10
    literals and ['+']/['-'] alternating, single spaces between them),
    parsing and then interpreting the root node returns the strict
    left-to-right fold [(...((v1 op1 v2) op2 v3) ... opN v(N+1))], in the
    arithmetic of [int], which is the exact fold as long as no
    intermediate result leaves the range of [int]; ["1 + 2"] gives 3,
    ["1 + 2 - 3"] gives 0 and ["5"] gives 5. *)
Theorem C1_left_to_right_fold :
  (forall (l1 : string) (v1 : Z) (rest : list (OperatorKind * string))
          (vals : list (OperatorKind * Z)),
      value_token l1 v1 -> wf_tail rest vals ->
      exists p : Parser,
        Parse new_Parser (expression l1 rest) = Some (Ok p) /\
        Interpret (prev p) = Ok (left_fold v1 vals) /\
        (Forall in_int (partials v1 vals) ->
         Interpret (prev p) = Ok (exact_fold v1 vals))) /\
  run "1 + 2" = Some (Ok 3) /\
  run "1 + 2 - 3" = Some (Ok 0) /\
  run "5" = Some (Ok 5).
Proof.
  split; [|repeat split; reflexivity].
  intros l1 v1 rest vals H1 Hrest.
  eexists. split; [apply (Parse_wf l1 v1 rest vals H1 Hrest)|].
  cbn [prev].
  assert (H : Interpret (chain (ValNode v1) vals) = Ok (left_fold v1 vals))
    by (apply Interpret_chain; reflexivity).
  split; [exact H|].
  intros Hin. rewrite H, (left_fold_exact vals v1 Hin). reflexivity.
Qed.

Lemma C1_left_to_right_fold_witness :
  value_token "7" 7 /\
  wf_tail [(OpMin, "10"); (OpAdd, "-4")]%string [(OpMin, 10); (OpAdd, -4)] /\
  exists p : Parser,
    Parse new_Parser "7 - 10 + -4" = Some (Ok p) /\
    Interpret (prev p) = Ok (-7).
Proof.
  assert (H1 : value_token "7" 7) by value_token_here.
  assert (H2 : wf_tail [(OpMin, "10"); (OpAdd, "-4")]%string
                       [(OpMin, 10); (OpAdd, -4)]) by wf_tail_here.
  split; [exact H1|]. split; [exact H2|].
  destruct (proj1 C1_left_to_right_fold "7"%string 7 _ _ H1 H2)
    as (p & Hp & Hv & _).
  exists p. split; [exact Hp | exact Hv].
Defined.

(** C3: for every well-formed expression with N operators the tree that
    [Parse] builds has exactly N operator nodes and N+1 value nodes; at
    every operator node the right child is a value node and the left child
    is a value node or an operator node, namely the tree built before: the
    root for one more operator and value has the former root as its left
    child. *)
Theorem C3_tree_shape
        (l1 : string) (v1 : Z) (rest : list (OperatorKind * string))
        (vals : list (OperatorKind * Z)) :
  value_token l1 v1 -> wf_tail rest vals ->
  exists p : Parser,
    Parse new_Parser (expression l1 rest) = Some (Ok p) /\
    count_binop (prev p) = List.length rest /\
    count_val (prev p) = S (List.length rest) /\
    every_binop chain_children (prev p) = true /\
    forall (o : OperatorKind) (l : string) (v : Z),
      value_token l v ->
      exists p' : Parser,
        Parse new_Parser (expression l1 (rest ++ [(o, l)])) = Some (Ok p') /\
        prev p' = BinaryOpNode o (prev p) (ValNode v).
Proof.
  intros H1 Hrest.
  eexists. split; [apply (Parse_wf l1 v1 rest vals H1 Hrest)|].
  cbn [prev]. rewrite count_binop_chain, count_val_chain.
  rewrite (wf_tail_length rest vals Hrest).
  repeat split.
  - apply every_binop_chain; reflexivity.
  - intros o l v Hv. eexists. split.
    + apply (Parse_wf l1 v1 (rest ++ [(o, l)]) (vals ++ [(o, v)]) H1).
      apply Forall2_app; [exact Hrest|].
      constructor; [split; [reflexivity|exact Hv]|constructor].
    + cbn [prev]. apply chain_snoc.
Qed.

Lemma C3_tree_shape_witness :
  value_token "1" 1 /\
  wf_tail [(OpAdd, "2"); (OpMin, "3")]%string [(OpAdd, 2); (OpMin, 3)] /\
  exists p : Parser,
    Parse new_Parser "1 + 2 - 3" = Some (Ok p) /\
    count_binop (prev p) = 2%nat /\
    count_val (prev p) = 3%nat /\
    every_binop chain_children (prev p) = true.
Proof.
  assert (H1 : value_token "1" 1) by value_token_here.
  assert (H2 : wf_tail [(OpAdd, "2"); (OpMin, "3")]%string
                       [(OpAdd, 2); (OpMin, 3)]) by wf_tail_here.
  split; [exact H1|]. split; [exact H2|].
  destruct (C3_tree_shape "1"%string 1 _ _ H1 H2)
    as (p & Hp & Hb & Hv & Hs & _).
  exists p. repeat split; assumption.
Defined.

(** ** Termination of the loop *)

Lemma Parse_body_index (p p' : Parser) (tok : string) :
  nth_error (exp p) (index p) = Some tok ->
  Parse_body p = Ok p' ->
  exp p' = exp p /\
  index p' = (if is_operator tok then index p + 2 else index p + 1)%nat.
Proof.
  intros Htok. unfold Parse_body, exp_at, is_operator.
  rewrite Htok. cbn [bind].
  assert (Hop : forall mk : Node -> Node -> Node,
             ' (n, q) <- (' (r, q) <- newValNode (set_index p (S (index p))) ;;
                          Ok (mk (prev (set_index p (S (index p)))) r, q)) ;;
             Ok (set_prev q n) = Ok p' ->
             exp p' = exp p /\ index p' = (index p + 2)%nat).
  { intros mk. unfold newValNode, exp_at. cbn [exp index set_index].
    destruct (nth_error (exp p) (S (index p))); cbn [bind]; [|discriminate].
    intros [= <-]. cbn. split; [reflexivity|lia]. }
  destruct (String.eqb tok "+"); [exact (Hop AddNode)|].
  destruct (String.eqb tok "-"); [exact (Hop MinNode)|].
  rewrite (newValNode_at p tok Htok). cbn [bind orb].
  intros [= <-]. cbn. split; [reflexivity|lia].
Qed.

Lemma Parse_loop_terminates (fuel : nat) (p : Parser) :
  (List.length (exp p) - index p <= fuel)%nat ->
  exists r : result Parser, Parse_loop fuel p = Some r.
Proof.
  intros H. rewrite (Parse_loop_tokens fuel p H). eexists. reflexivity.
Qed.

(** C10: [Parse] terminates on every input string, from every state of
    the parser: an iteration that goes through moves [index] forward by
    exactly one (value branch) or two (operator branch) and leaves the
    tokens alone, so that one iteration per token still to read is enough
    for the loop to exit, by [return] or by a run-time panic. *)
Theorem C10_Parse_terminates :
  (forall (p : Parser) (e : string),
      exists r : result Parser, Parse p e = Some r) /\
  (forall (fuel : nat) (p : Parser),
      (List.length (exp p) - index p <= fuel)%nat ->
      exists r : result Parser, Parse_loop fuel p = Some r) /\
  (forall (p p' : Parser) (tok : string),
      nth_error (exp p) (index p) = Some tok ->
      Parse_body p = Ok p' ->
      exp p' = exp p /\
      index p' = (if is_operator tok then index p + 2 else index p + 1)%nat).
Proof.
  split; [|split].
  - intros p e. unfold Parse. apply Parse_loop_terminates. cbn. lia.
  - exact Parse_loop_terminates.
  - exact Parse_body_index.
Qed.

Lemma C10_Parse_terminates_witness :
  (List.length (exp (mkParser ["4"; "-"; "1"]%string 1 (ValNode 4))) -
   index (mkParser ["4"; "-"; "1"]%string 1 (ValNode 4)) <= 2)%nat /\
  exists r : result Parser,
    Parse_loop 2 (mkParser ["4"; "-"; "1"]%string 1 (ValNode 4)) = Some r.
Proof.
  assert (H : (List.length (exp (mkParser ["4"; "-"; "1"]%string 1 (ValNode 4))) -
               index (mkParser ["4"; "-"; "1"]%string 1 (ValNode 4)) <= 2)%nat)
    by (simpl; lia).
  split; [exact H|].
  exact (proj1 (proj2 C10_Parse_terminates) 2%nat _ H).
Defined.

(** ** What the parser does with the other inputs *)

Lemma Atoi_syntax_zero (s : string) (v : Z) :
  Atoi s = (v, Some ErrSyntax) -> v = 0.
Proof.
  unfold Atoi, ParseInt. destruct s as [|c rest]; [congruence|]. cbv zeta.
  destruct (ParseUint _) as [un [[]|]]; [congruence| |];
    (destruct (negb _ && _); [discriminate|]);
    (destruct (_ && _); discriminate).
Qed.

Lemma Atoi_range_bound (s : string) (v : Z) :
  Atoi s = (v, Some ErrRange) -> v = int_max \/ v = int_min.
Proof.
  unfold Atoi, ParseInt. destruct s as [|c rest]; [discriminate|]. cbv zeta.
  destruct (ParseUint _) as [un [[]|]]; [discriminate| |];
    (destruct (negb _ && _); [intros [= <-]; left; reflexivity|]);
    (destruct (_ && _); [intros [= <-]; right; reflexivity|discriminate]).
Qed.

Lemma Interpret_nil_free (t : Node) :
  nil_free t = true -> exists z : Z, Interpret t = Ok z.
Proof.
  induction t as [|v|l IHl r IHr|l IHl r IHr]; simpl; intros H;
    try discriminate; try (eexists; reflexivity);
    apply andb_true_iff in H; destruct H as [Hl Hr];
    destruct (IHl Hl) as [a ->]; destruct (IHr Hr) as [b ->];
    eexists; reflexivity.
Qed.

Lemma parse_tokens_nil_free (n : nat) :
  forall (toks : list string) (t t' : Node),
    (List.length toks <= n)%nat -> nil_free t = true ->
    parse_tokens t toks = Ok t' -> nil_free t' = true.
Proof.
  induction n as [|n IH]; intros toks t t' Hn Ht.
  - destruct toks; [|simpl in Hn; lia]. simpl. congruence.
  - destruct toks as [|tok toks]; [simpl; congruence|].
    simpl in Hn. cbn [parse_tokens].
    assert (Hop : forall mk : Node -> Node -> Node,
               (forall l r, nil_free (mk l r) = nil_free l && nil_free r) ->
               match toks with
               | [] => Panicked index_out_of_range
               | v :: toks'' => parse_tokens (mk t (ValNode (fst (Atoi v)))) toks''
               end = Ok t' -> nil_free t' = true).
    { intros mk Hmk. destruct toks as [|v toks'']; [discriminate|].
      simpl in Hn. apply IH; [lia|]. rewrite Hmk, Ht. reflexivity. }
    destruct (String.eqb tok "+"); [apply Hop; reflexivity|].
    destruct (String.eqb tok "-"); [apply Hop; reflexivity|].
    apply IH; [lia|reflexivity].
Qed.

Lemma parse_tokens_app_tail (rest : list (OperatorKind * string)) :
  forall (t : Node) (more : list string),
    parse_tokens t (tail_tokens rest ++ more) =
    parse_tokens (chain t (converted rest)) more.
Proof.
  induction rest as [|[o l] rest IH]; intros t more; [reflexivity|].
  destruct o; simpl; apply IH.
Qed.

(** Two value tokens in a row: whatever came before the second one is
    dropped. *)
Lemma parse_tokens_two_values (a b : string) (post : list string) :
  is_operator a = false -> is_operator b = false ->
  forall (n : nat) (pre : list string) (t : Node),
    (List.length pre <= n)%nat ->
    parse_tokens t (pre ++ a :: b :: post) =
    parse_tokens (ValNode (fst (Atoi b))) post.
Proof.
  intros Ha Hb.
  assert (H0 : forall t, parse_tokens t (a :: b :: post) =
                         parse_tokens (ValNode (fst (Atoi b))) post).
  { intros t. rewrite (parse_tokens_value _ _ _ Ha).
    apply (parse_tokens_value _ _ _ Hb). }
  induction n as [|n IH]; intros pre t Hn.
  - destruct pre; [|simpl in Hn; lia]. apply H0.
  - destruct pre as [|x pre]; [apply H0|]. simpl in Hn.
    assert (Hop : forall mk : Node -> Node -> Node,
               match pre ++ a :: b :: post with
               | [] => Panicked index_out_of_range
               | v :: toks'' => parse_tokens (mk t (ValNode (fst (Atoi v)))) toks''
               end = parse_tokens (ValNode (fst (Atoi b))) post).
    { intros mk. destruct pre as [|y pre]; cbn [app].
      - apply (parse_tokens_value _ _ _ Hb).
      - simpl in Hn. apply IH. lia. }
    cbn [app parse_tokens].
    destruct (String.eqb x "+"); [apply Hop|].
    destruct (String.eqb x "-"); [apply Hop|].
    apply IH. lia.
Qed.

(** The loop on [pre ++ post] agrees with the loop resumed at [post] with
    the subtree [t], if that is where the tokens of [pre] lead. *)
Lemma Parse_resumes (e : string) (pre post : list string) (t : Node) :
  Split e " " = pre ++ post ->
  parse_tokens nil_Node (pre ++ post) = parse_tokens t post ->
  Parse new_Parser e =
  Parse_loop (List.length post) (mkParser (Split e " ") (List.length pre) t).
Proof.
  intros He Ht. rewrite Parse_new.
  rewrite Parse_loop_tokens by (cbn [exp index]; rewrite He, length_app; lia).
  cbn [exp index prev]. rewrite He, Ht.
  rewrite skipn_app, skipn_all, Nat.sub_diag. cbn [skipn app].
  f_equal. destruct (parse_tokens t post); [|reflexivity].
  unfold returned. cbn [bind exp index]. do 2 f_equal.
  rewrite length_app. lia.
Qed.

Lemma last_cons_cons {A : Type} (a b : A) (l : list A) (d : A) :
  last (a :: b :: l) d = last (b :: l) d.
Proof. reflexivity. Qed.

Lemma parse_tokens_panics (n : nat) :
  forall (toks : list string) (t : Node) (err : panic),
    (List.length toks <= n)%nat ->
    parse_tokens t toks = Panicked err ->
    err = index_out_of_range /\ toks <> [] /\
    is_operator (last toks EmptyString) = true.
Proof.
  induction n as [|n IH]; intros toks t err Hn.
  - destruct toks; [|simpl in Hn; lia]. discriminate.
  - destruct toks as [|tok toks]; [discriminate|].
    simpl in Hn. cbn [parse_tokens].
    assert (Hrec : forall (t0 : Node) (rest : list string) (x : string),
               (List.length rest <= n)%nat ->
               parse_tokens t0 rest = Panicked err ->
               err = index_out_of_range /\ x :: rest <> [] /\
               is_operator (last (x :: rest) EmptyString) = true).
    { intros t0 rest x Hlen H.
      destruct (IH rest t0 err Hlen H) as (He & Hne & Hop).
      repeat split; [exact He|discriminate|].
      destruct rest as [|y rest]; [congruence|]. exact Hop. }
    assert (Hop : forall mk : Node -> Node -> Node,
               is_operator tok = true ->
               match toks with
               | [] => Panicked index_out_of_range
               | v :: toks'' => parse_tokens (mk t (ValNode (fst (Atoi v)))) toks''
               end = Panicked err ->
               err = index_out_of_range /\ tok :: toks <> [] /\
               is_operator (last (tok :: toks) EmptyString) = true).
    { intros mk Htok. destruct toks as [|v toks''].
      - intros [= <-]. repeat split; [discriminate|exact Htok].
      - simpl in Hn. intros H.
        destruct (Hrec _ toks'' v ltac:(lia) H) as (He & _ & Hlast).
        repeat split; [exact He|discriminate|].
        rewrite last_cons_cons. exact Hlast. }
    unfold is_operator in Hop.
    destruct (String.eqb tok "+"); [apply Hop; reflexivity|].
    destruct (String.eqb tok "-"); [apply Hop; reflexivity|].
    apply Hrec. lia.
Qed.

(** C2 (as amended): the code has none of the five error kinds, and the
    builder reports no error.  Evaluating a tree without a nil child never
    fails.  For every input whose first and last segments are not operator
    symbols the builder returns a tree, that tree has no nil child, and
    evaluating it returns a value; and whenever the builder returns a tree
    for an input whose first segment is not an operator symbol, that tree
    has no nil child. *)
Theorem C2_evaluation_of_built_tree :
  (forall t : Node, nil_free t = true -> exists z : Z, Interpret t = Ok z) /\
  (forall e : string,
      is_operator (hd EmptyString (Split e " ")) = false ->
      is_operator (last (Split e " ") EmptyString) = false ->
      exists p : Parser,
        Parse new_Parser e = Some (Ok p) /\
        nil_free (prev p) = true /\
        exists z : Z, Interpret (prev p) = Ok z) /\
  (forall (e : string) (p : Parser),
      is_operator (hd EmptyString (Split e " ")) = false ->
      Parse new_Parser e = Some (Ok p) ->
      nil_free (prev p) = true /\ exists z : Z, Interpret (prev p) = Ok z).
Proof.
  assert (Hret : forall (e : string) (p : Parser),
             is_operator (hd EmptyString (Split e " ")) = false ->
             Parse new_Parser e = Some (Ok p) ->
             nil_free (prev p) = true /\ exists z : Z, Interpret (prev p) = Ok z).
  { intros e p Hop H. rewrite Parse_new in H.
    destruct (Split e " ") as [|tok toks] eqn:He;
      [exact (False_ind _ (Split_not_nil e " " He))|].
    cbn [hd] in Hop. rewrite (parse_tokens_value _ _ _ Hop) in H.
    destruct (parse_tokens _ toks) as [t'|] eqn:Ht; [|discriminate].
    cbn [bind] in H. injection H as <-. cbn [prev].
    assert (Hfree : nil_free t' = true)
      by (eapply (parse_tokens_nil_free (List.length toks));
          [apply Nat.le_refl| |exact Ht]; reflexivity).
    split; [exact Hfree|apply Interpret_nil_free, Hfree]. }
  split; [exact Interpret_nil_free|]. split; [|exact Hret].
  intros e Hfirst Hlast.
  destruct (parse_tokens nil_Node (Split e " ")) as [t|err] eqn:Ht.
  - assert (HP : Parse new_Parser e =
                 Some (Ok (mkParser (Split e " ") (List.length (Split e " ")) t)))
      by (rewrite Parse_new, Ht; reflexivity).
    eexists. split; [exact HP|]. exact (Hret e _ Hfirst HP).
  - apply (parse_tokens_panics (List.length (Split e " ")) _ _ _
                               (Nat.le_refl _)) in Ht.
    destruct Ht as (_ & _ & Hop). congruence.
Qed.

Lemma C2_evaluation_of_built_tree_witness :
  is_operator (hd EmptyString (Split "8 - 3" " ")) = false /\
  is_operator (last (Split "8 - 3" " ") EmptyString) = false /\
  exists p : Parser,
    Parse new_Parser "8 - 3" = Some (Ok p) /\
    nil_free (prev p) = true /\
    exists z : Z, Interpret (prev p) = Ok z.
Proof.
  assert (H1 : is_operator (hd EmptyString (Split "8 - 3" " ")) = false)
    by reflexivity.
  assert (H2 : is_operator (last (Split "8 - 3" " ") EmptyString) = false)
    by reflexivity.
  split; [exact H1|]. split; [exact H2|].
  exact (proj1 (proj2 C2_evaluation_of_built_tree) "8 - 3"%string H1 H2).
Defined.

(** C2 fails as stated: the builder returns a tree for ["+ 1"], and
    evaluating that tree fails on the nil left child of its root. *)
Lemma C2_counterexample :
  exists p : Parser,
    Parse new_Parser "+ 1" = Some (Ok p) /\
    prev p = AddNode nil_Node (ValNode 1) /\
    Interpret (prev p) = Panicked nil_dereference.
Proof. eexists. repeat split. Qed.

(** C4 (as amended): a segment that is neither a valid integer literal
    nor an operator symbol is not rejected.  In a chain
    [seg (op seg)*] whose first segment is not an operator symbol every
    segment in value position becomes a value node with the value that
    [Atoi] returns beside its error: 0 with a syntax error, the largest or
    the smallest [int] with a range error. *)
Theorem C4_malformed_segment_is_a_value :
  (forall (l1 : string) (rest : list (OperatorKind * string)),
      no_space l1 = true -> is_operator l1 = false -> spaceless rest ->
      exists p : Parser,
        Parse new_Parser (expression l1 rest) = Some (Ok p) /\
        prev p = chain (ValNode (fst (Atoi l1))) (converted rest)) /\
  (forall (s : string) (v : Z), Atoi s = (v, Some ErrSyntax) -> v = 0) /\
  (forall (s : string) (v : Z),
      Atoi s = (v, Some ErrRange) -> v = int_max \/ v = int_min).
Proof.
  split; [|split; [exact Atoi_syntax_zero|exact Atoi_range_bound]].
  intros l1 rest H1 Hop Hrest. eexists.
  split; [apply (Parse_chain l1 rest H1 Hop Hrest)|reflexivity].
Qed.

Lemma C4_malformed_segment_is_a_value_witness :
  no_space "1x" = true /\ is_operator "1x" = false /\
  spaceless [(OpAdd, "two")]%string /\
  literal_value "1x" = None /\ literal_value "two" = None /\
  exists p : Parser,
    Parse new_Parser "1x + two" = Some (Ok p) /\
    prev p = AddNode (ValNode 0) (ValNode 0).
Proof.
  assert (H1 : no_space "1x" = true) by reflexivity.
  assert (H2 : is_operator "1x" = false) by reflexivity.
  assert (H3 : spaceless [(OpAdd, "two")]%string)
    by (repeat constructor).
  repeat (split; [first [assumption | reflexivity]|]).
  exact (proj1 C4_malformed_segment_is_a_value "1x"%string _ H1 H2 H3).
Defined.

(** C4 fails as stated: ["abc"] is neither a literal nor an operator
    symbol, and the pipeline returns 0 for it. *)
Lemma C4_counterexample :
  literal_value "abc" = None /\ is_operator "abc" = false /\
  run "abc" = Some (Ok 0).
Proof. repeat split. Qed.

(** C5 (as amended): parsing the empty string does not fail.  [Split]
    never gives zero segments; for the empty string it gives the one empty
    segment, which [Parse] turns into the value node 0. *)
Theorem C5_empty_string_is_zero :
  (forall e : string, Split e " " <> []) /\
  Split EmptyString " " = [EmptyString] /\
  Parse new_Parser EmptyString =
    Some (Ok (mkParser [EmptyString] 1 (ValNode 0))).
Proof.
  split; [intros e; apply Split_not_nil|]. split; reflexivity.
Qed.

(** C5 fails as stated: the empty string is parsed and evaluates to 0. *)
Lemma C5_counterexample : run EmptyString = Some (Ok 0).
Proof. reflexivity. Qed.

(** C6 (as amended): an input whose first token is an operator symbol is
    not rejected.  With a second token after it, the first iteration
    builds the operator node with a nil left child and the value of the
    second token as its right child, and the loop goes on from the third
    token with that node. *)
Theorem C6_leading_operator
        (e : string) (o : OperatorKind) (tok : string) (toks : list string) :
  Split e " " = symbol o :: tok :: toks ->
  Parse new_Parser e =
  Parse_loop (List.length toks)
             (mkParser (Split e " ") 2
                       (BinaryOpNode o nil_Node (ValNode (fst (Atoi tok))))).
Proof.
  intros He.
  apply (Parse_resumes e [symbol o; tok] toks); [exact He|].
  apply parse_tokens_operator.
Qed.

Lemma C6_leading_operator_witness :
  Split "+ 1 2" " " = [symbol OpAdd; "1"; "2"]%string /\
  Parse new_Parser "+ 1 2" =
  Parse_loop 1 (mkParser (Split "+ 1 2" " ") 2 (AddNode nil_Node (ValNode 1))).
Proof.
  assert (H : Split "+ 1 2" " " = [symbol OpAdd; "1"; "2"]%string)
    by reflexivity.
  split; [exact H|].
  exact (C6_leading_operator "+ 1 2"%string OpAdd "1"%string ["2"%string] H).
Defined.

(** C6 fails as stated: ["+ 1 2"] is parsed and evaluates to 2. *)
Lemma C6_counterexample :
  hd_error (Split "+ 1 2" " ") = Some "+"%string /\
  run "+ 1 2" = Some (Ok 2).
Proof. split; reflexivity. Qed.

(** C7 (as amended): two consecutive value tokens are not rejected.  The
    second one starts over: everything built before it is dropped, and the
    loop goes on after it with its value node as the only subtree. *)
Theorem C7_consecutive_values
        (e : string) (pre : list string) (a b : string) (post : list string) :
  Split e " " = pre ++ a :: b :: post ->
  is_operator a = false -> is_operator b = false ->
  Parse new_Parser e =
  Parse_loop (List.length post)
             (mkParser (Split e " ") (List.length pre + 2)
                       (ValNode (fst (Atoi b)))).
Proof.
  intros He Ha Hb.
  replace (List.length pre + 2)%nat with (List.length (pre ++ [a; b]))
    by (rewrite length_app; reflexivity).
  apply Parse_resumes; rewrite <- app_assoc; [exact He|].
  apply (parse_tokens_two_values a b post Ha Hb (List.length pre)).
  apply Nat.le_refl.
Qed.

Lemma C7_consecutive_values_witness :
  Split "1 2" " " = [] ++ ["1"; "2"]%string /\
  is_operator "1" = false /\ is_operator "2" = false /\
  Parse new_Parser "1 2" =
  Parse_loop 0 (mkParser (Split "1 2" " ") 2 (ValNode 2)).
Proof.
  assert (H : Split "1 2" " " = [] ++ ["1"; "2"]%string) by reflexivity.
  split; [exact H|]. split; [reflexivity|]. split; [reflexivity|].
  exact (C7_consecutive_values "1 2"%string [] "1"%string "2"%string [] H
                               eq_refl eq_refl).
Defined.

(** C7 fails as stated: ["1 2"] is parsed and evaluates to 2. *)
Lemma C7_counterexample : run "1 2" = Some (Ok 2).
Proof. reflexivity. Qed.

Lemma Atoi_symbol (o : OperatorKind) : fst (Atoi (symbol o)) = 0.
Proof. destruct o; reflexivity. Qed.

(** C8 (as amended): after a well-formed chain, an operator token followed
    by another operator token is not rejected: the second operator token
    is taken as the operand of the first, with the value 0, and the loop
    goes on after it.  After a well-formed chain, an input that ends on an
    operator token gives no tree. *)
Theorem C8_operator_without_value
        (l1 : string) (v1 : Z) (rest : list (OperatorKind * string))
        (vals : list (OperatorKind * Z)) (o1 : OperatorKind) :
  value_token l1 v1 -> wf_tail rest vals ->
  (forall (o2 : OperatorKind) (post : list string) (e : string),
      Split e " " = (l1 :: tail_tokens rest) ++ symbol o1 :: symbol o2 :: post ->
      Parse new_Parser e =
      Parse_loop (List.length post)
                 (mkParser (Split e " ")
                           (List.length (l1 :: tail_tokens rest) + 2)
                           (BinaryOpNode o1 (chain (ValNode v1) vals) (ValNode 0)))) /\
  (forall p : Parser,
      Parse new_Parser (expression l1 rest ++ String " " (symbol o1)) <> Some (Ok p)).
Proof.
  intros H1 Hrest.
  pose proof (literal_not_operator l1 v1 (proj1 H1)) as Hop.
  pose proof (Atoi_value_token l1 v1 H1) as Hv1.
  pose proof (converted_wf rest vals Hrest) as Hvals.
  split.
  - intros o2 post e He.
    replace (List.length (l1 :: tail_tokens rest) + 2)%nat
      with (List.length ((l1 :: tail_tokens rest) ++ [symbol o1; symbol o2]))
      by (rewrite length_app; reflexivity).
    apply Parse_resumes; rewrite <- app_assoc; [exact He|].
    cbn [app]. rewrite (parse_tokens_value _ _ _ Hop), parse_tokens_app_tail.
    rewrite parse_tokens_operator, Atoi_symbol, Hv1, Hvals. reflexivity.
  - intros p. rewrite Parse_new, Split_app.
    rewrite Split_expression;
      [|eapply literal_no_space, H1|eapply wf_tail_spaceless, Hrest].
    rewrite (Split_no_space _ (symbol_no_space o1)).
    cbn [app]. rewrite (parse_tokens_value _ _ _ Hop), parse_tokens_app_tail.
    destruct o1; discriminate.
Qed.

Lemma C8_operator_without_value_witness :
  value_token "1" 1 /\
  wf_tail [(OpMin, "4")]%string [(OpMin, 4)] /\
  Split "1 - 4 + - 2" " " =
    ("1" :: tail_tokens [(OpMin, "4")])%string
      ++ symbol OpAdd :: symbol OpMin :: ["2"%string] /\
  Parse new_Parser "1 - 4 + - 2" =
    Parse_loop 1 (mkParser (Split "1 - 4 + - 2" " ") 5
                           (AddNode (MinNode (ValNode 1) (ValNode 4)) (ValNode 0))) /\
  forall p : Parser, Parse new_Parser "1 - 4 +" <> Some (Ok p).
Proof.
  assert (H1 : value_token "1" 1) by value_token_here.
  assert (H2 : wf_tail [(OpMin, "4")]%string [(OpMin, 4)]) by wf_tail_here.
  assert (H3 : Split "1 - 4 + - 2" " " =
               ("1" :: tail_tokens [(OpMin, "4")])%string
                 ++ symbol OpAdd :: symbol OpMin :: ["2"%string])
    by reflexivity.
  split; [exact H1|]. split; [exact H2|]. split; [exact H3|].
  destruct (C8_operator_without_value "1"%string 1 _ _ OpAdd H1 H2) as [Ha Hb].
  split; [exact (Ha OpMin ["2"%string] "1 - 4 + - 2"%string H3)|exact Hb].
Defined.

(** C8 fails as stated: ["1 + + 2"] has two consecutive operator tokens
    and ["1 + +"] moreover ends on an operator token; both are parsed and
    evaluate to 2 and to 1. *)
Lemma C8_counterexample :
  run "1 + + 2" = Some (Ok 2) /\ run "1 + +" = Some (Ok 1).
Proof. split; reflexivity. Qed.

Lemma value_token_not_empty (l : string) (v : Z) :
  value_token l v -> String.eqb l EmptyString = false.
Proof. intros [H _]. destruct l; [discriminate|reflexivity]. Qed.

Lemma tail_tokens_not_empty (rest : list (OperatorKind * string))
      (vals : list (OperatorKind * Z)) :
  wf_tail rest vals ->
  Forall (fun s => String.eqb s EmptyString = false) (tail_tokens rest).
Proof.
  unfold wf_tail.
  induction 1 as [|[o l] [o' v] rest vals [_ Hv] _ IH]; simpl;
    [constructor|].
  constructor; [destruct o; reflexivity|].
  constructor; [exact (value_token_not_empty l v Hv)|exact IH].
Qed.

Lemma filter_not_empty (l : list string) :
  Forall (fun s => String.eqb s EmptyString = false) l ->
  filter (fun seg => negb (String.eqb seg EmptyString)) l = l.
Proof.
  induction 1 as [|s l Hs _ IH]; simpl; [reflexivity|].
  rewrite Hs, IH. reflexivity.
Qed.

Lemma filter_empty_segment (a b : list string) :
  Forall (fun s => String.eqb s EmptyString = false) (a ++ b) ->
  filter (fun seg => negb (String.eqb seg EmptyString)) (a ++ EmptyString :: b) =
  a ++ b.
Proof.
  intros H. rewrite filter_app.
  change (filter (fun seg => negb (String.eqb seg EmptyString)) (EmptyString :: b))
    with (filter (fun seg => negb (String.eqb seg EmptyString)) b).
  rewrite <- filter_app. apply filter_not_empty, H.
Qed.

Lemma tail_tokens_app (r1 r2 : list (OperatorKind * string)) :
  tail_tokens (r1 ++ r2) = tail_tokens r1 ++ tail_tokens r2.
Proof.
  induction r1 as [|[o l] r1 IH]; simpl; [reflexivity|].
  rewrite IH. reflexivity.
Qed.

(** The segments of a well-formed expression written with one more space
    before an operator, and with one more space after it. *)
Lemma Split_space_before_operator
      (l1 : string) (rest1 : list (OperatorKind * string)) (o : OperatorKind)
      (l : string) (rest2 : list (OperatorKind * string)) :
  no_space l1 = true -> spaceless rest1 -> no_space l = true -> spaceless rest2 ->
  Split (expression l1 rest1 ++
         String " " (String " " (symbol o ++ String " " (expression l rest2)))) " " =
  (l1 :: tail_tokens rest1) ++ EmptyString :: symbol o :: l :: tail_tokens rest2.
Proof.
  intros H1 Hr1 Hl Hr2.
  rewrite Split_app, (Split_expression rest1 l1 H1 Hr1).
  change (Split (String " " (symbol o ++ String " " (expression l rest2))) " ")
    with (EmptyString :: Split (symbol o ++ String " " (expression l rest2)) " ").
  rewrite Split_app, (Split_no_space _ (symbol_no_space o)),
    (Split_expression rest2 l Hl Hr2).
  reflexivity.
Qed.

Lemma Split_space_after_operator
      (l1 : string) (rest1 : list (OperatorKind * string)) (o : OperatorKind)
      (l : string) (rest2 : list (OperatorKind * string)) :
  no_space l1 = true -> spaceless rest1 -> no_space l = true -> spaceless rest2 ->
  Split (expression l1 rest1 ++
         String " " (symbol o ++ String " " (String " " (expression l rest2)))) " " =
  (l1 :: tail_tokens rest1) ++ symbol o :: EmptyString :: l :: tail_tokens rest2.
Proof.
  intros H1 Hr1 Hl Hr2.
  rewrite Split_app, (Split_expression rest1 l1 H1 Hr1).
  rewrite Split_app, (Split_no_space _ (symbol_no_space o)).
  change (Split (String " " (expression l rest2)) " ")
    with (EmptyString :: Split (expression l rest2) " ").
  rewrite (Split_expression rest2 l Hl Hr2).
  reflexivity.
Qed.

(** C9 (as amended): the tokens are separated by exactly one space.  A
    well-formed expression written with single spaces is parsed into the
    chain of all its tokens.  One more space is not skipped: it makes an
    empty segment, read as the value 0.  Written before an operator, it
    makes the parser drop all that stands to its left and build the chain
    of the rest on the value node 0; written after an operator, it makes
    the parser take 0 as the operand of that operator and build the chain
    of what follows on the next value.  The three texts have the same
    tokens, counted between runs of spaces. *)
Theorem C9_single_space_separation
        (l1 : string) (v1 : Z) (rest1 : list (OperatorKind * string))
        (vals1 : list (OperatorKind * Z)) (o : OperatorKind)
        (l : string) (v : Z) (rest2 : list (OperatorKind * string))
        (vals2 : list (OperatorKind * Z)) :
  value_token l1 v1 -> wf_tail rest1 vals1 ->
  value_token l v -> wf_tail rest2 vals2 ->
  let single := expression l1 (rest1 ++ (o, l) :: rest2) in
  let before :=
    (expression l1 rest1 ++
     String " " (String " " (symbol o ++ String " " (expression l rest2))))%string in
  let after :=
    (expression l1 rest1 ++
     String " " (symbol o ++ String " " (String " " (expression l rest2))))%string in
  (exists p : Parser,
      Parse new_Parser single = Some (Ok p) /\
      prev p = chain (ValNode v1) (vals1 ++ (o, v) :: vals2) /\
      Interpret (prev p) = Ok (left_fold v1 (vals1 ++ (o, v) :: vals2))) /\
  (exists p : Parser,
      Parse new_Parser before = Some (Ok p) /\
      prev p = chain (ValNode 0) ((o, v) :: vals2) /\
      Interpret (prev p) = Ok (left_fold 0 ((o, v) :: vals2))) /\
  (exists p : Parser,
      Parse new_Parser after = Some (Ok p) /\
      prev p = chain (ValNode v) vals2 /\
      Interpret (prev p) = Ok (left_fold v vals2)) /\
  whitespace_tokens before = whitespace_tokens single /\
  whitespace_tokens after = whitespace_tokens single.
Proof.
  intros H1 Hr1 Hl Hr2 single before after.
  pose proof (literal_no_space l1 v1 (proj1 H1)) as Hs1.
  pose proof (literal_no_space l v (proj1 Hl)) as Hsl.
  pose proof (wf_tail_spaceless rest1 vals1 Hr1) as Hsr1.
  pose proof (wf_tail_spaceless rest2 vals2 Hr2) as Hsr2.
  pose proof (literal_not_operator l1 v1 (proj1 H1)) as Hop1.
  pose proof (literal_not_operator l v (proj1 Hl)) as Hopl.
  assert (Hwf : wf_tail (rest1 ++ (o, l) :: rest2) (vals1 ++ (o, v) :: vals2)).
  { apply Forall2_app; [exact Hr1|].
    constructor; [split; [reflexivity|exact Hl]|exact Hr2]. }
  assert (Hsingle : Split single " " =
                    (l1 :: tail_tokens rest1) ++ symbol o :: l :: tail_tokens rest2).
  { unfold single.
    rewrite (Split_expression _ l1 Hs1 (wf_tail_spaceless _ _ Hwf)).
    rewrite tail_tokens_app. reflexivity. }
  assert (Hne : Forall (fun s => String.eqb s EmptyString = false)
                       ((l1 :: tail_tokens rest1) ++
                        symbol o :: l :: tail_tokens rest2)).
  { apply Forall_app. split.
    - constructor; [exact (value_token_not_empty l1 v1 H1)|].
      exact (tail_tokens_not_empty rest1 vals1 Hr1).
    - constructor; [destruct o; reflexivity|].
      constructor; [exact (value_token_not_empty l v Hl)|].
      exact (tail_tokens_not_empty rest2 vals2 Hr2). }
  assert (Hws : whitespace_tokens single =
                (l1 :: tail_tokens rest1) ++ symbol o :: l :: tail_tokens rest2)
    by (unfold whitespace_tokens; rewrite Hsingle; apply filter_not_empty, Hne).
  split; [|split; [|split; [|split]]].
  - eexists. split; [apply (Parse_wf l1 v1 _ _ H1 Hwf)|].
    cbn [prev]. split; [reflexivity|].
    apply Interpret_chain. reflexivity.
  - eexists. split.
    + unfold before. rewrite Parse_new.
      rewrite (Split_space_before_operator l1 rest1 o l rest2 Hs1 Hsr1 Hsl Hsr2).
      cbn [app]. rewrite (parse_tokens_value _ _ _ Hop1), parse_tokens_app_tail.
      rewrite (parse_tokens_value _ EmptyString _ eq_refl).
      rewrite parse_tokens_operator, parse_tokens_tail.
      rewrite (Atoi_value_token l v Hl), (converted_wf rest2 vals2 Hr2).
      reflexivity.
    + cbn [prev]. split; [reflexivity|].
      apply (Interpret_chain ((o, v) :: vals2) (ValNode 0) 0). reflexivity.
  - eexists. split.
    + unfold after. rewrite Parse_new.
      rewrite (Split_space_after_operator l1 rest1 o l rest2 Hs1 Hsr1 Hsl Hsr2).
      cbn [app]. rewrite (parse_tokens_value _ _ _ Hop1), parse_tokens_app_tail.
      rewrite parse_tokens_operator, (parse_tokens_value _ _ _ Hopl).
      rewrite parse_tokens_tail.
      rewrite (Atoi_value_token l v Hl), (converted_wf rest2 vals2 Hr2).
      reflexivity.
    + cbn [prev]. split; [reflexivity|].
      apply Interpret_chain. reflexivity.
  - rewrite Hws. unfold whitespace_tokens, before.
    rewrite (Split_space_before_operator l1 rest1 o l rest2 Hs1 Hsr1 Hsl Hsr2).
    apply filter_empty_segment, Hne.
  - rewrite Hws. unfold whitespace_tokens, after.
    rewrite (Split_space_after_operator l1 rest1 o l rest2 Hs1 Hsr1 Hsl Hsr2).
    change ((l1 :: tail_tokens rest1) ++
            symbol o :: EmptyString :: l :: tail_tokens rest2)
      with ((l1 :: tail_tokens rest1) ++
            [symbol o] ++ EmptyString :: l :: tail_tokens rest2).
    change ((l1 :: tail_tokens rest1) ++ symbol o :: l :: tail_tokens rest2)
      with ((l1 :: tail_tokens rest1) ++
            [symbol o] ++ l :: tail_tokens rest2) in Hne |- *.
    rewrite !app_assoc in *.
    apply filter_empty_segment, Hne.
Qed.

Lemma C9_single_space_separation_witness :
  value_token "1" 1 /\ wf_tail [(OpMin, "5")]%string [(OpMin, 5)] /\
  value_token "2" 2 /\ wf_tail [(OpMin, "3")]%string [(OpMin, 3)] /\
  (exists p : Parser,
      Parse new_Parser "1 - 5 + 2 - 3" = Some (Ok p) /\
      Interpret (prev p) = Ok (-5)) /\
  (exists p : Parser,
      Parse new_Parser "1 - 5  + 2 - 3" = Some (Ok p) /\
      Interpret (prev p) = Ok (-1)) /\
  (exists p : Parser,
      Parse new_Parser "1 - 5 +  2 - 3" = Some (Ok p) /\
      Interpret (prev p) = Ok (-1)) /\
  whitespace_tokens "1 - 5  + 2 - 3" = whitespace_tokens "1 - 5 + 2 - 3" /\
  whitespace_tokens "1 - 5 +  2 - 3" = whitespace_tokens "1 - 5 + 2 - 3".
Proof.
  assert (H1 : value_token "1" 1) by value_token_here.
  assert (H2 : wf_tail [(OpMin, "5")]%string [(OpMin, 5)]) by wf_tail_here.
  assert (H3 : value_token "2" 2) by value_token_here.
  assert (H4 : wf_tail [(OpMin, "3")]%string [(OpMin, 3)]) by wf_tail_here.
  repeat (split; [assumption|]).
  destruct (C9_single_space_separation "1"%string 1 _ _ OpAdd "2"%string 2 _ _
                                       H1 H2 H3 H4)
    as ((p & Hp & _ & Hi) & (q & Hq & _ & Hj) & (r & Hr & _ & Hk) & Hb & Ha).
  split; [exists p; split; [exact Hp|exact Hi]|].
  split; [exists q; split; [exact Hq|exact Hj]|].
  split; [exists r; split; [exact Hr|exact Hk]|].
  split; [exact Hb|exact Ha].
Defined.

(** C9 fails as stated: ["1 + 2"] and ["1  + 2"] have the same tokens
    with one and two spaces after the first, and evaluate to 3 and to 2. *)
Lemma C9_counterexample :
  whitespace_tokens "1 + 2" = whitespace_tokens "1  + 2" /\
  run "1 + 2" = Some (Ok 3) /\ run "1  + 2" = Some (Ok 2).
Proof. repeat split. Qed.

(** * Further properties of the parser and the evaluator *)

Lemma parse_tokens_not_nil (n : nat) :
  forall (toks : list string) (t t' : Node),
    (List.length toks <= n)%nat ->
    t <> nil_Node \/ toks <> [] ->
    parse_tokens t toks = Ok t' -> t' <> nil_Node.
Proof.
  induction n as [|n IH]; intros toks t t' Hn Hne.
  - destruct toks; [|simpl in Hn; lia]. simpl. intros [= <-].
    destruct Hne as [H|H]; [exact H|congruence].
  - destruct toks as [|tok toks].
    { simpl. intros [= <-]. destruct Hne as [H|H]; [exact H|congruence]. }
    simpl in Hn. cbn [parse_tokens].
    assert (Hop : forall mk : Node -> Node -> Node,
               (forall l r, mk l r <> nil_Node) ->
               match toks with
               | [] => Panicked index_out_of_range
               | v :: toks'' => parse_tokens (mk t (ValNode (fst (Atoi v)))) toks''
               end = Ok t' -> t' <> nil_Node).
    { intros mk Hmk. destruct toks as [|v toks'']; [discriminate|].
      simpl in Hn. apply IH; [lia|]. left. apply Hmk. }
    destruct (String.eqb tok "+"); [apply Hop; discriminate|].
    destruct (String.eqb tok "-"); [apply Hop; discriminate|].
    apply IH; [lia|]. left. discriminate.
Qed.

(** X1: when [Parse] returns from a new parser, the parser holds the
    segments of the input, [index] stands just past the last of them and
    [prev] is a node, never nil. *)
Theorem X1_Parse_leaves_a_root (e : string) (p : Parser) :
  Parse new_Parser e = Some (Ok p) ->
  exp p = Split e " " /\ index p = List.length (exp p) /\ prev p <> nil_Node.
Proof.
  rewrite Parse_new.
  destruct (parse_tokens nil_Node (Split e " ")) as [t|] eqn:Ht;
    [|discriminate].
  cbn [bind]. intros [= <-]. cbn [exp index prev].
  repeat split.
  apply (parse_tokens_not_nil (List.length (Split e " ")) _ _ _
                              (Nat.le_refl _)) in Ht; [exact Ht|].
  right. apply Split_not_nil.
Qed.

Lemma X1_Parse_leaves_a_root_witness :
  Parse new_Parser "6 - 2" =
    Some (Ok (mkParser ["6"; "-"; "2"]%string 3 (MinNode (ValNode 6) (ValNode 2)))) /\
  MinNode (ValNode 6) (ValNode 2) <> nil_Node.
Proof.
  assert (H : Parse new_Parser "6 - 2" =
              Some (Ok (mkParser ["6"; "-"; "2"]%string 3
                                 (MinNode (ValNode 6) (ValNode 2)))))
    by reflexivity.
  split; [exact H|].
  exact (proj2 (proj2 (X1_Parse_leaves_a_root "6 - 2"%string _ H))).
Defined.

(** X2: [Parse] on a new parser can only panic with an index out of
    range, and only on an input whose last segment is an operator symbol;
    on every other input it returns. *)
Theorem X2_Parse_panics_only_after_operator (e : string) :
  (forall err : panic,
      Parse new_Parser e = Some (Panicked err) ->
      err = index_out_of_range /\
      is_operator (last (Split e " ") EmptyString) = true) /\
  (is_operator (last (Split e " ") EmptyString) = false ->
   exists p : Parser, Parse new_Parser e = Some (Ok p)).
Proof.
  rewrite Parse_new.
  destruct (parse_tokens nil_Node (Split e " ")) as [t|err0] eqn:Ht;
    cbn [bind].
  - split; [discriminate|]. intros _. eexists. reflexivity.
  - apply (parse_tokens_panics (List.length (Split e " ")) _ _ _
                               (Nat.le_refl _)) in Ht.
    destruct Ht as (He & _ & Hop). split.
    + intros err [= <-]. split; assumption.
    + intros H. congruence.
Qed.

Lemma X2_Parse_panics_only_after_operator_witness :
  is_operator (last (Split "3 + + 4 x" " ") EmptyString) = false /\
  exists p : Parser, Parse new_Parser "3 + + 4 x" = Some (Ok p).
Proof.
  assert (H : is_operator (last (Split "3 + + 4 x" " ") EmptyString) = false)
    by reflexivity.
  split; [exact H|].
  exact (proj2 (X2_Parse_panics_only_after_operator "3 + + 4 x"%string) H).
Defined.

Lemma parse_tokens_right_is_val (n : nat) :
  forall (toks : list string) (t t' : Node),
    (List.length toks <= n)%nat ->
    every_binop right_is_val t = true ->
    parse_tokens t toks = Ok t' -> every_binop right_is_val t' = true.
Proof.
  induction n as [|n IH]; intros toks t t' Hn Ht.
  - destruct toks; [|simpl in Hn; lia]. simpl. congruence.
  - destruct toks as [|tok toks]; [simpl; congruence|].
    simpl in Hn. cbn [parse_tokens].
    assert (Hop : forall mk : Node -> Node -> Node,
               (forall l v, every_binop right_is_val (mk l (ValNode v)) =
                            every_binop right_is_val l) ->
               match toks with
               | [] => Panicked index_out_of_range
               | v :: toks'' => parse_tokens (mk t (ValNode (fst (Atoi v)))) toks''
               end = Ok t' -> every_binop right_is_val t' = true).
    { intros mk Hmk. destruct toks as [|v toks'']; [discriminate|].
      simpl in Hn. apply IH; [lia|]. rewrite Hmk. exact Ht. }
    destruct (String.eqb tok "+");
      [apply Hop; intros; simpl; apply andb_true_r|].
    destruct (String.eqb tok "-");
      [apply Hop; intros; simpl; apply andb_true_r|].
    apply IH; [lia|reflexivity].
Qed.

(** X3: the loop keeps the shape of [prev] on every input, well-formed or
    not: if in the tree a parser holds every operator node has a value
    node as its right child, then so it is in the tree it holds when
    [Parse] returns; in particular for a new parser. *)
Theorem X3_right_child_is_always_a_value :
  (forall (p p' : Parser) (e : string),
      every_binop right_is_val (prev p) = true ->
      Parse p e = Some (Ok p') ->
      every_binop right_is_val (prev p') = true) /\
  (forall (e : string) (p' : Parser),
      Parse new_Parser e = Some (Ok p') ->
      every_binop right_is_val (prev p') = true).
Proof.
  assert (H : forall (p p' : Parser) (e : string),
             every_binop right_is_val (prev p) = true ->
             Parse p e = Some (Ok p') ->
             every_binop right_is_val (prev p') = true).
  { intros p p' e Hp. unfold Parse.
    rewrite Parse_loop_tokens by (cbn [exp index set_exp]; lia).
    cbn [exp index prev set_exp].
    destruct (parse_tokens _ _) as [t|] eqn:Ht; [|discriminate].
    cbn [bind]. intros [= <-]. cbn [prev returned].
    eapply (parse_tokens_right_is_val _ _ _ _ (Nat.le_refl _) Hp), Ht. }
  split; [exact H|].
  intros e p'. apply H. reflexivity.
Qed.

Lemma X3_right_child_is_always_a_value_witness :
  Parse new_Parser "+ 1 2 - - 5" =
    Some (Ok (mkParser ["+"; "1"; "2"; "-"; "-"; "5"]%string 6 (ValNode 5))) /\
  Parse new_Parser "4 - x + +" =
    Some (Ok (mkParser ["4"; "-"; "x"; "+"; "+"]%string 5
                       (AddNode (MinNode (ValNode 4) (ValNode 0)) (ValNode 0)))) /\
  every_binop right_is_val
              (AddNode (MinNode (ValNode 4) (ValNode 0)) (ValNode 0)) = true.
Proof.
  assert (H1 : Parse new_Parser "+ 1 2 - - 5" =
               Some (Ok (mkParser ["+"; "1"; "2"; "-"; "-"; "5"]%string 6
                                  (ValNode 5)))) by reflexivity.
  assert (H2 : Parse new_Parser "4 - x + +" =
               Some (Ok (mkParser ["4"; "-"; "x"; "+"; "+"]%string 5
                          (AddNode (MinNode (ValNode 4) (ValNode 0)) (ValNode 0)))))
    by reflexivity.
  split; [exact H1|]. split; [exact H2|].
  exact (proj2 X3_right_child_is_always_a_value "4 - x + +"%string _ H2).
Defined.

Lemma Parse_new_state (e : string) (p : Parser) :
  Parse new_Parser e = Some (Ok p) ->
  exp p = Split e " " /\ index p = List.length (Split e " ").
Proof.
  rewrite Parse_new.
  destruct (parse_tokens nil_Node (Split e " ")); [|discriminate].
  cbn [bind]. intros [= <-]. split; reflexivity.
Qed.

Lemma Parse_loop_done (fuel : nat) (p : Parser) :
  (List.length (exp p) <= index p)%nat -> Parse_loop fuel p = Some (Ok p).
Proof.
  intros H. apply Nat.leb_le in H.
  destruct fuel; cbn [Parse_loop]; rewrite H; reflexivity.
Qed.

(** X4: [Parse] resets neither [index] nor [prev].  A parser that has
    parsed one input and is given a second input with no more segments
    than the first returns at once: only [exp] changes, and [prev] is
    still the tree of the first input. *)
Theorem X4_second_Parse_keeps_the_first_tree (e1 e2 : string) (p1 : Parser) :
  Parse new_Parser e1 = Some (Ok p1) ->
  (List.length (Split e2 " ") <= List.length (Split e1 " "))%nat ->
  Parse p1 e2 = Some (Ok (set_exp p1 (Split e2 " "))) /\
  prev (set_exp p1 (Split e2 " ")) = prev p1.
Proof.
  intros H1 Hlen.
  destruct (Parse_new_state e1 p1 H1) as (_ & Hidx).
  split; [|reflexivity].
  unfold Parse. apply Parse_loop_done. cbn [exp index set_exp]. lia.
Qed.

Lemma X4_second_Parse_keeps_the_first_tree_witness :
  Parse new_Parser "1 + 2" =
    Some (Ok (mkParser ["1"; "+"; "2"]%string 3 (AddNode (ValNode 1) (ValNode 2)))) /\
  (List.length (Split "9 - 4" " ") <= List.length (Split "1 + 2" " "))%nat /\
  Parse (mkParser ["1"; "+"; "2"]%string 3 (AddNode (ValNode 1) (ValNode 2))) "9 - 4" =
    Some (Ok (mkParser ["9"; "-"; "4"]%string 3 (AddNode (ValNode 1) (ValNode 2)))).
Proof.
  assert (H1 : Parse new_Parser "1 + 2" =
               Some (Ok (mkParser ["1"; "+"; "2"]%string 3
                                  (AddNode (ValNode 1) (ValNode 2)))))
    by reflexivity.
  assert (H2 : (List.length (Split "9 - 4" " ") <=
                List.length (Split "1 + 2" " "))%nat) by (simpl; lia).
  split; [exact H1|]. split; [exact H2|].
  exact (proj1 (X4_second_Parse_keeps_the_first_tree
                  "1 + 2"%string "9 - 4"%string _ H1 H2)).
Defined.

Lemma Interpret_Ok_nil_free (t : Node) (z : Z) :
  Interpret t = Ok z -> nil_free t = true.
Proof.
  revert z.
  induction t as [|v|l IHl r IHr|l IHl r IHr]; simpl; intros z H;
    try discriminate; try reflexivity;
    destruct (Interpret l) as [a|]; [|discriminate| |discriminate];
    destruct (Interpret r) as [b|]; try discriminate;
    rewrite (IHl a eq_refl), (IHr b eq_refl); reflexivity.
Qed.

Lemma Interpret_panic_kind (t : Node) (err : panic) :
  Interpret t = Panicked err -> err = nil_dereference.
Proof.
  induction t as [|v|l IHl r IHr|l IHl r IHr]; simpl; intros H;
    try congruence;
    destruct (Interpret l) as [a|]; cbn [bind] in H;
    try (apply IHl; exact H);
    destruct (Interpret r) as [b|]; cbn [bind] in H;
    try (apply IHr; exact H); discriminate.
Qed.

(** X5: [Interpret] fails exactly on the trees that have a nil child
    somewhere (or are nil): whichever operand holds it, the call reaches
    it.  The failure is the nil dereference. *)
Theorem X5_Interpret_fails_exactly_on_nil (t : Node) :
  (nil_free t = true <-> exists z : Z, Interpret t = Ok z) /\
  (nil_free t = false <-> Interpret t = Panicked nil_dereference).
Proof.
  assert (H1 : nil_free t = true <-> exists z : Z, Interpret t = Ok z).
  { split; [apply Interpret_nil_free|].
    intros [z Hz]. eapply Interpret_Ok_nil_free, Hz. }
  split; [exact H1|]. split.
  - intros Hf. destruct (Interpret t) as [z|err] eqn:Ht.
    + apply Interpret_Ok_nil_free in Ht. congruence.
    + rewrite (Interpret_panic_kind t err Ht). reflexivity.
  - intros Ht. destruct (nil_free t) eqn:Hf; [|reflexivity].
    apply Interpret_nil_free in Hf. destruct Hf as [z Hz]. congruence.
Qed.

Lemma Interpret_chain_panic (vals : list (OperatorKind * Z)) :
  forall (t : Node) (err : panic),
    Interpret t = Panicked err -> Interpret (chain t vals) = Panicked err.
Proof.
  unfold chain.
  induction vals as [|[o v] vals IH]; intros t err H; simpl; [exact H|].
  apply IH. destruct o; simpl; rewrite H; reflexivity.
Qed.

(** X6: an expression that is a chain [op seg (op seg)*], beginning with
    an operator symbol, is parsed without complaint into the chain over
    the first operator node, whose left child is nil; interpreting the
    root then fails with the nil dereference, however long the chain. *)
Theorem X6_leading_operator_fails_at_Interpret
        (o : OperatorKind) (l : string) (rest : list (OperatorKind * string)) :
  no_space l = true -> spaceless rest ->
  exists p : Parser,
    Parse new_Parser (symbol o ++ String " " (expression l rest)) = Some (Ok p) /\
    prev p = chain (BinaryOpNode o nil_Node (ValNode (fst (Atoi l)))) (converted rest) /\
    Interpret (prev p) = Panicked nil_dereference.
Proof.
  intros Hl Hrest. eexists. split; [|split].
  - rewrite Parse_new, Split_app, (Split_no_space _ (symbol_no_space o)).
    rewrite (Split_expression rest l Hl Hrest). cbn [app].
    rewrite parse_tokens_operator, parse_tokens_tail. reflexivity.
  - reflexivity.
  - cbn [prev]. apply Interpret_chain_panic. destruct o; reflexivity.
Qed.

Lemma X6_leading_operator_fails_at_Interpret_witness :
  no_space "1" = true /\ spaceless [(OpAdd, "2"); (OpMin, "3")]%string /\
  exists p : Parser,
    Parse new_Parser "- 1 + 2 - 3" = Some (Ok p) /\
    Interpret (prev p) = Panicked nil_dereference.
Proof.
  assert (H1 : no_space "1" = true) by reflexivity.
  assert (H2 : spaceless [(OpAdd, "2"); (OpMin, "3")]%string)
    by (repeat constructor).
  split; [exact H1|]. split; [exact H2|].
  destruct (X6_leading_operator_fails_at_Interpret OpMin "1"%string _ H1 H2)
    as (p & Hp & _ & Hi).
  exists p. split; [exact Hp|exact Hi].
Defined.

(** ** Arithmetic of the fold *)

Lemma wrap_add_l (x y : Z) : wrap (wrap x + y) = wrap (x + y).
Proof.
  unfold wrap. f_equal.
  replace ((x + 2 ^ 63) mod 2 ^ 64 - 2 ^ 63 + y + 2 ^ 63)
    with ((x + 2 ^ 63) mod 2 ^ 64 + y) by lia.
  rewrite Zplus_mod_idemp_l. f_equal. lia.
Qed.

Lemma left_fold_in_int (vals : list (OperatorKind * Z)) :
  forall a : Z, in_int a -> in_int (left_fold a vals).
Proof.
  unfold left_fold.
  induction vals as [|[o v] vals IH]; intros a Ha; simpl; [exact Ha|].
  apply IH. destruct o; apply wrap_range.
Qed.

Lemma left_fold_app (a : Z) (vals more : list (OperatorKind * Z)) :
  left_fold a (vals ++ more) = left_fold (left_fold a vals) more.
Proof. unfold left_fold. apply fold_left_app. Qed.

Lemma run_wf (l1 : string) (v1 : Z) (rest : list (OperatorKind * string))
      (vals : list (OperatorKind * Z)) :
  value_token l1 v1 -> wf_tail rest vals ->
  run (expression l1 rest) = Some (Ok (left_fold v1 vals)).
Proof.
  intros H1 Hrest. unfold run. rewrite (Parse_wf l1 v1 rest vals H1 Hrest).
  cbn [prev]. rewrite (Interpret_chain vals (ValNode v1) v1); reflexivity.
Qed.

(** X7: subtracting a value and adding it again gives back what was
    there: a well-formed expression followed by [- v + v] evaluates to the
    same [int] as without it, also when the subtraction overflows. *)
Theorem X7_subtract_then_add_cancels
        (l1 : string) (v1 : Z) (rest : list (OperatorKind * string))
        (vals : list (OperatorKind * Z)) (l : string) (v : Z) :
  value_token l1 v1 -> wf_tail rest vals -> value_token l v ->
  run (expression l1 (rest ++ [(OpMin, l); (OpAdd, l)])) =
  run (expression l1 rest).
Proof.
  intros H1 Hrest Hv.
  rewrite (run_wf l1 v1 rest vals H1 Hrest).
  rewrite (run_wf l1 v1 (rest ++ [(OpMin, l); (OpAdd, l)])
                  (vals ++ [(OpMin, v); (OpAdd, v)]) H1).
  - rewrite left_fold_app. do 2 f_equal.
    pose proof (left_fold_in_int vals v1 (proj2 H1)) as Ha.
    set (a := left_fold v1 vals) in *.
    change (left_fold a [(OpMin, v); (OpAdd, v)])
      with (int_add (int_sub a v) v).
    unfold int_add, int_sub. rewrite wrap_add_l.
    replace (a - v + v) with a by lia.
    apply wrap_in_int, Ha.
  - apply Forall2_app; [exact Hrest|].
    repeat (constructor; [split; [reflexivity|exact Hv]|]). constructor.
Qed.

Lemma X7_subtract_then_add_cancels_witness :
  value_token "-9223372036854775808" (-9223372036854775808) /\
  wf_tail [] [] /\ value_token "1" 1 /\
  run "-9223372036854775808 - 1 + 1" = run "-9223372036854775808".
Proof.
  assert (H1 : value_token "-9223372036854775808" (-9223372036854775808))
    by value_token_here.
  assert (H2 : wf_tail [] []) by wf_tail_here.
  assert (H3 : value_token "1" 1) by value_token_here.
  split; [exact H1|]. split; [exact H2|]. split; [exact H3|].
  exact (X7_subtract_then_add_cancels _ _ [] [] "1"%string 1 H1 H2 H3).
Defined.

Lemma parse_tokens_size (n : nat) :
  forall (toks : list string) (t t' : Node),
    (List.length toks <= n)%nat ->
    parse_tokens t toks = Ok t' ->
    (count_nodes t' <= count_nodes t + List.length toks)%nat.
Proof.
  unfold count_nodes.
  induction n as [|n IH]; intros toks t t' Hn.
  - destruct toks; [|simpl in Hn; lia]. simpl. intros [= <-]. lia.
  - destruct toks as [|tok toks]; [simpl; intros [= <-]; lia|].
    simpl in Hn. cbn [parse_tokens].
    assert (Hop : forall mk : Node -> Node -> Node,
               (forall l v, (count_binop (mk l (ValNode v)) +
                             count_val (mk l (ValNode v)) =
                             count_binop l + count_val l + 2)%nat) ->
               match toks with
               | [] => Panicked index_out_of_range
               | v :: toks'' => parse_tokens (mk t (ValNode (fst (Atoi v)))) toks''
               end = Ok t' ->
               (count_binop t' + count_val t' <=
                count_binop t + count_val t + List.length (tok :: toks))%nat).
    { intros mk Hmk. destruct toks as [|v toks'']; [discriminate|].
      simpl in Hn. intros H. apply IH in H; [|lia].
      rewrite Hmk in H. simpl. lia. }
    destruct (String.eqb tok "+"); [apply Hop; intros; simpl; lia|].
    destruct (String.eqb tok "-"); [apply Hop; intros; simpl; lia|].
    intros H. apply IH in H; [|lia]. simpl in *. lia.
Qed.

(** X8: the tree that [Parse] builds on a new parser has at most one node
    per segment of the input, whatever the input. *)
Theorem X8_at_most_one_node_per_segment (e : string) (p : Parser) :
  Parse new_Parser e = Some (Ok p) ->
  (count_nodes (prev p) <= List.length (Split e " "))%nat.
Proof.
  rewrite Parse_new.
  destruct (parse_tokens nil_Node (Split e " ")) as [t|] eqn:Ht;
    [|discriminate].
  cbn [bind]. intros [= <-]. cbn [prev].
  apply (parse_tokens_size _ _ _ _ (Nat.le_refl _)) in Ht.
  exact Ht.
Qed.

Lemma X8_at_most_one_node_per_segment_witness :
  Parse new_Parser "7 8 + 9" =
    Some (Ok (mkParser ["7"; "8"; "+"; "9"]%string 4
                       (AddNode (ValNode 8) (ValNode 9)))) /\
  (count_nodes (AddNode (ValNode 8) (ValNode 9)) <=
   List.length (Split "7 8 + 9" " "))%nat.
Proof.
  assert (H : Parse new_Parser "7 8 + 9" =
              Some (Ok (mkParser ["7"; "8"; "+"; "9"]%string 4
                                 (AddNode (ValNode 8) (ValNode 9)))))
    by reflexivity.
  split; [exact H|].
  exact (X8_at_most_one_node_per_segment "7 8 + 9"%string _ H).
Defined.

(** * The further examples *)

(** ** The extended calculator *)

Lemma Calc_Interpret_panic_kind (n : Calc.Node) :
  forall e : Calc.panic,
    Calc.Interpret n = Panics e -> e = Calc.nil_dereference.
Proof.
  induction n as [|v|l IHl r IHr|l IHl r IHr|l IHl r IHr|l IHl r IHr];
    cbn [Calc.Interpret]; intros e H.
  - congruence.
  - discriminate.
  - destruct (Calc.Interpret l) as [a|el]; cbn [obind] in H;
      [|apply IHl; congruence].
    destruct (Calc.Interpret r) as [b|er]; cbn [obind] in H;
      [discriminate|apply IHr; congruence].
  - destruct (Calc.Interpret l) as [a|el]; cbn [obind] in H;
      [|apply IHl; congruence].
    destruct (Calc.Interpret r) as [b|er]; cbn [obind] in H;
      [discriminate|apply IHr; congruence].
  - destruct (Calc.Interpret l) as [a|el]; cbn [obind] in H;
      [|apply IHl; congruence].
    destruct (Calc.Interpret r) as [b|er]; cbn [obind] in H;
      [discriminate|apply IHr; congruence].
  - destruct (Calc.Interpret r) as [z|er]; cbn [obind] in H;
      [|apply IHr; congruence].
    destruct (z =? 0) eqn:Hz; [discriminate|].
    destruct (Calc.Interpret l) as [a|el]; cbn [obind] in H;
      [|apply IHl; congruence].
    unfold Calc.int_quo in H. rewrite Hz in H. discriminate.
Qed.

Lemma Calc_Interpret_nil_free (n : Calc.Node) :
  Calc.nil_free n = true -> exists z : Z, Calc.Interpret n = Done z.
Proof.
  induction n as [|v|l IHl r IHr|l IHl r IHr|l IHl r IHr|l IHl r IHr];
    cbn [Calc.Interpret Calc.nil_free]; intros H;
    try discriminate; try (eexists; reflexivity);
    apply andb_true_iff in H; destruct H as [Hl Hr];
    destruct (IHl Hl) as [a ->]; destruct (IHr Hr) as [b ->];
    cbn [obind]; try (eexists; reflexivity).
  destruct (b =? 0) eqn:Hb; [eexists; reflexivity|].
  unfold Calc.int_quo. rewrite Hb. eexists. reflexivity.
Qed.

(** X9: the extended [Interpret] never divides by zero: the test in
    [DivNode.Interpret] keeps the division from every zero divisor, so the
    only way to fail is a nil child, and a tree without nil children
    always evaluates. *)
Theorem X9_DivNode_never_divides_by_zero (n : Calc.Node) :
  (forall e : Calc.panic,
      Calc.Interpret n = Panics e -> e = Calc.nil_dereference) /\
  (Calc.nil_free n = true -> exists z : Z, Calc.Interpret n = Done z).
Proof.
  split; [apply Calc_Interpret_panic_kind|apply Calc_Interpret_nil_free].
Qed.

Lemma X9_DivNode_never_divides_by_zero_witness :
  Calc.nil_free
    (Calc.DivNode (Calc.ValNode 7)
                  (Calc.MinNode (Calc.ValNode 2) (Calc.ValNode 2))) = true /\
  exists z : Z,
    Calc.Interpret
      (Calc.DivNode (Calc.ValNode 7)
                    (Calc.MinNode (Calc.ValNode 2) (Calc.ValNode 2))) = Done z.
Proof.
  assert (H : Calc.nil_free
                (Calc.DivNode (Calc.ValNode 7)
                   (Calc.MinNode (Calc.ValNode 2) (Calc.ValNode 2))) = true)
    by reflexivity.
  split; [exact H|].
  exact (proj2 (X9_DivNode_never_divides_by_zero _) H).
Defined.

(** X10: a [DivNode] whose right operand evaluates to 0 gives 0 and never
    evaluates its left operand: the result is 0 also when the left operand
    is nil or fails.  With any other divisor a failing left operand makes
    the division fail. *)
Theorem X10_DivNode_by_zero_is_zero (l r : Calc.Node) (z : Z) :
  Calc.Interpret r = Done z ->
  (z = 0 -> Calc.Interpret (Calc.DivNode l r) = Done 0) /\
  (z <> 0 -> forall e : Calc.panic,
      Calc.Interpret l = Panics e ->
      Calc.Interpret (Calc.DivNode l r) = Panics e).
Proof.
  intros Hr. cbn [Calc.Interpret]. rewrite Hr. cbn [obind]. split.
  - intros ->. reflexivity.
  - intros Hz e Hl. apply Z.eqb_neq in Hz. rewrite Hz, Hl. reflexivity.
Qed.

Lemma X10_DivNode_by_zero_is_zero_witness :
  Calc.Interpret (Calc.ValNode 0) = Done 0 /\
  Calc.Interpret (Calc.DivNode Calc.nil_Node (Calc.ValNode 0)) = Done 0.
Proof.
  assert (H : Calc.Interpret (Calc.ValNode 0) = Done 0) by reflexivity.
  split; [exact H|].
  exact (proj1 (X10_DivNode_by_zero_is_zero Calc.nil_Node _ 0 H) eq_refl).
Defined.

(** X11: dividing a product by the factor it was multiplied with gives
    back the other factor, as long as the factor is not 0 and the product
    fits an [int]. *)
Theorem X11_multiply_then_divide (t : Calc.Node) (a b : Z) :
  Calc.Interpret t = Done a ->
  in_int a -> b <> 0 -> in_int (a * b) ->
  Calc.Interpret (Calc.DivNode (Calc.MulNode t (Calc.ValNode b)) (Calc.ValNode b)) =
  Done a.
Proof.
  intros Ht Ha Hb Hab. cbn [Calc.Interpret]. rewrite Ht. cbn [obind].
  pose proof Hb as Hb'. apply Z.eqb_neq in Hb'. rewrite Hb'.
  unfold Calc.int_quo, Calc.int_mul. rewrite Hb'.
  rewrite (wrap_in_int (a * b) Hab), Z.quot_mul by exact Hb.
  rewrite (wrap_in_int a Ha). reflexivity.
Qed.

Lemma X11_multiply_then_divide_witness :
  Calc.Interpret (Calc.AddNode (Calc.ValNode 5) (Calc.ValNode (-12))) = Done (-7) /\
  in_int (-7) /\ -3 <> 0 /\ in_int (-7 * -3) /\
  Calc.Interpret
    (Calc.DivNode
       (Calc.MulNode (Calc.AddNode (Calc.ValNode 5) (Calc.ValNode (-12)))
                     (Calc.ValNode (-3)))
       (Calc.ValNode (-3))) = Done (-7).
Proof.
  assert (H1 : Calc.Interpret (Calc.AddNode (Calc.ValNode 5) (Calc.ValNode (-12)))
               = Done (-7)) by reflexivity.
  assert (H2 : in_int (-7)) by (unfold in_int, int_min, int_max; lia).
  assert (H3 : -3 <> 0) by lia.
  assert (H4 : in_int (-7 * -3)) by (unfold in_int, int_min, int_max; lia).
  repeat (split; [assumption|]).
  exact (X11_multiply_then_divide _ (-7) (-3) H1 H2 H3 H4).
Defined.

(** ** The boolean expressions *)

(** X12: on a boolean tree without nil children [Interpret] returns the
    truth value of the formula, evaluating the right operand or not; and a
    left operand that decides ([false] under [AndNode], [true] under
    [OrNode]) hides whatever the right operand is, nil included. *)
Theorem X12_BoolNode_truth :
  (forall n : Boolean.BoolNode,
      Boolean.nil_free n = true ->
      Boolean.Interpret n = Ok (Boolean.truth n)) /\
  (forall l r : Boolean.BoolNode,
      Boolean.Interpret l = Ok false ->
      Boolean.Interpret (Boolean.AndNode l r) = Ok false) /\
  (forall l r : Boolean.BoolNode,
      Boolean.Interpret l = Ok true ->
      Boolean.Interpret (Boolean.OrNode l r) = Ok true).
Proof.
  split; [|split].
  - induction n as [| | |l IHl r IHr|l IHl r IHr];
      cbn [Boolean.Interpret Boolean.nil_free Boolean.truth]; intros H;
      try discriminate; try reflexivity;
      apply andb_true_iff in H; destruct H as [Hl Hr];
      rewrite (IHl Hl); cbn [bind];
      destruct (Boolean.truth l); cbn [andb orb];
      first [reflexivity | exact (IHr Hr)].
  - intros l r H. cbn [Boolean.Interpret]. rewrite H. reflexivity.
  - intros l r H. cbn [Boolean.Interpret]. rewrite H. reflexivity.
Qed.

Lemma X12_BoolNode_truth_witness :
  Boolean.nil_free
    (Boolean.OrNode (Boolean.AndNode Boolean.TrueNode Boolean.FalseNode)
                    Boolean.TrueNode) = true /\
  Boolean.Interpret
    (Boolean.OrNode (Boolean.AndNode Boolean.TrueNode Boolean.FalseNode)
                    Boolean.TrueNode) = Ok true /\
  Boolean.Interpret (Boolean.AndNode Boolean.FalseNode Boolean.nil_BoolNode) =
  Ok false.
Proof.
  assert (H : Boolean.nil_free
                (Boolean.OrNode (Boolean.AndNode Boolean.TrueNode Boolean.FalseNode)
                                Boolean.TrueNode) = true) by reflexivity.
  split; [exact H|]. split.
  - exact (proj1 X12_BoolNode_truth _ H).
  - exact (proj1 (proj2 X12_BoolNode_truth) Boolean.FalseNode
                 Boolean.nil_BoolNode eq_refl).
Defined.

(** ** The template engine *)

Section TemplateProperties.

Context {atom : Type} (fmt_v : value atom -> string).

Lemma map_set_same (m : GoMap atom) (k : string) (v : value atom) :
  map_set m k v k = Some v.
Proof. unfold map_set. rewrite String.eqb_refl. reflexivity. Qed.

Lemma map_set_other (m : GoMap atom) (k k' : string) (v : value atom) :
  k' <> k -> map_set m k v k' = m k'.
Proof.
  intros H. unfold map_set. apply String.eqb_neq in H. rewrite H.
  reflexivity.
Qed.

Lemma plain_text_ext (n : Template.TemplateNode) (d1 d2 : GoMap atom) :
  (forall k, d1 k = d2 k) ->
  Template.plain_text fmt_v n d1 = Template.plain_text fmt_v n d2.
Proof.
  intros H. destruct n; simpl; try reflexivity. rewrite H. reflexivity.
Qed.

Lemma Render_plain (n : Template.TemplateNode) (d : GoMap atom) :
  Template.is_plain n = true ->
  Template.Render fmt_v n d = Done (Template.plain_text fmt_v n d, d).
Proof.
  destruct n; simpl; intros H; try discriminate; try reflexivity.
  destruct (d name); reflexivity.
Qed.

(** The loop over a body without a loop: each round binds the variable
    and nothing else, and renders the body under that binding. *)
Lemma ForNode_loop_plain (body : Template.TemplateNode) (x : string)
      (data0 : GoMap atom) :
  Template.is_plain body = true ->
  forall (items : list (value atom)) (d : GoMap atom) (result : string),
    (forall k, k <> x -> d k = data0 k) ->
    exists d' : GoMap atom,
      Template.ForNode_loop (Template.Render fmt_v body) x items d result =
      Done ((result ++
             Template.join_all
               (map (fun item => Template.plain_text fmt_v body (map_set data0 x item))
                    items))%string, d') /\
      (forall k, k <> x -> d' k = data0 k) /\
      d' x = match items with
             | [] => d x
             | _ :: _ => Some (last items VNil)
             end.
Proof.
  intros Hplain.
  induction items as [|item items IH]; intros d result Hd.
  - exists d. cbn [Template.ForNode_loop map Template.join_all fold_right].
    rewrite append_empty_r. repeat split. exact Hd.
  - cbn [Template.ForNode_loop]. rewrite (Render_plain body _ Hplain).
    cbn [obind].
    assert (Hd1 : forall k, k <> x -> map_set d x item k = data0 k)
      by (intros k Hk; rewrite (map_set_other d x k item Hk); apply Hd, Hk).
    destruct (IH (map_set d x item)
                 (result ++ Template.plain_text fmt_v body (map_set d x item))%string
                 Hd1) as (d' & Hrun & Hkeep & Hx).
    exists d'. split; [|split; [exact Hkeep|]].
    + assert (Heq : Template.plain_text fmt_v body (map_set d x item) =
                    Template.plain_text fmt_v body (map_set data0 x item)).
      { apply plain_text_ext. intros k.
        destruct (String.eqb_spec k x) as [->|Hk].
        - rewrite !map_set_same. reflexivity.
        - rewrite !map_set_other by exact Hk. apply Hd, Hk. }
      rewrite Hrun, Heq, append_assoc. reflexivity.
    + rewrite Hx. destruct items as [|item' items'];
        [apply map_set_same|reflexivity].
Qed.

(** X13: [ForNode.Render] panics on the type assertion whenever the key
    of the list is missing or bound to anything but a slice (nil
    included); over an empty slice it gives the empty string, calls no
    body (the body may be nil) and leaves the map as it was. *)
Theorem X13_ForNode_list_key
        (variable key : string) (body : Template.TemplateNode)
        (data : GoMap atom) :
  ((forall items, map_get data key <> VList items) ->
   Template.Render fmt_v (Template.ForNode variable key body) data =
   Panics Template.interface_conversion) /\
  (map_get data key = VList [] ->
   Template.Render fmt_v (Template.ForNode variable key body) data =
   Done (EmptyString, data)).
Proof.
  cbn [Template.Render]. split.
  - intros H. destruct (map_get data key) as [|a|items];
      [reflexivity|reflexivity|]. exfalso. exact (H items eq_refl).
  - intros ->. reflexivity.
Qed.

(** X14: a loop whose body is a text or a variable renders the body once
    per item, in order, each time under the map with the loop variable
    bound to that item.  It changes the map at the loop variable only,
    and leaves it bound to the last item: a binding the caller had for
    that name is lost. *)
Theorem X14_ForNode_binds_the_variable
        (variable key : string) (body : Template.TemplateNode)
        (data : GoMap atom) (items : list (value atom)) :
  Template.is_plain body = true ->
  map_get data key = VList items ->
  exists data' : GoMap atom,
    Template.Render fmt_v (Template.ForNode variable key body) data =
    Done (Template.join_all
            (map (fun item =>
                    Template.plain_text fmt_v body (map_set data variable item))
                 items), data') /\
    (forall k, k <> variable -> data' k = data k) /\
    (items <> [] -> data' variable = Some (last items VNil)) /\
    (items = [] -> data' variable = data variable).
Proof.
  intros Hplain Hkey. cbn [Template.Render]. rewrite Hkey.
  destruct (ForNode_loop_plain body variable data Hplain items data
                               EmptyString (fun k _ => eq_refl))
    as (d' & Hrun & Hkeep & Hx).
  exists d'. split; [exact Hrun|]. split; [exact Hkeep|].
  rewrite Hx. split.
  - intros Hne. destruct items; [congruence|reflexivity].
  - intros ->. reflexivity.
Qed.

(** X15: a loop whose body is the loop variable itself renders the
    items of the list, formatted one after the other. *)
Theorem X15_ForNode_over_its_variable
        (variable key : string) (data : GoMap atom)
        (items : list (value atom)) :
  map_get data key = VList items ->
  exists data' : GoMap atom,
    Template.Render fmt_v
      (Template.ForNode variable key (Template.VariableNode variable)) data =
    Done (Template.join_all (map fmt_v items), data').
Proof.
  intros Hkey. cbn [Template.Render]. rewrite Hkey.
  destruct (ForNode_loop_plain (Template.VariableNode variable) variable data
                               eq_refl items data EmptyString
                               (fun k _ => eq_refl))
    as (d' & Hrun & _).
  exists d'. cbn [Template.Render] in Hrun. rewrite Hrun.
  do 2 f_equal. cbn [append]. f_equal. apply map_ext. intros item.
  cbn [Template.plain_text]. rewrite map_set_same. reflexivity.
Qed.

End TemplateProperties.

Lemma X13_ForNode_list_key_witness :
  (forall items : list (value string),
      map_get (map_set empty_map "xs" (VAtom "one"%string)) "xs" <> VList items) /\
  Template.Render (fun _ : value string => "?"%string)
                  (Template.ForNode "x" "xs" (Template.TextNode "t"))
                  (map_set empty_map "xs" (VAtom "one"%string)) =
  Panics Template.interface_conversion.
Proof.
  assert (H : forall items : list (value string),
             map_get (map_set empty_map "xs" (VAtom "one"%string)) "xs"
             <> VList items)
    by (intros items; discriminate).
  split; [exact H|].
  exact (proj1 (X13_ForNode_list_key (fun _ : value string => "?"%string)
                  "x" "xs" (Template.TextNode "t") _) H).
Defined.

Lemma X14_ForNode_binds_the_variable_witness :
  Template.is_plain (Template.VariableNode "x") = true /\
  map_get (map_set (map_set empty_map "x" (VAtom "old"%string)) "xs"
                   (VList [VAtom "a"; VAtom "b"]%string)) "xs" =
    VList [VAtom "a"; VAtom "b"]%string /\
  exists data' : GoMap string,
    Template.Render
      (fun v : value string => match v with VAtom a => a | _ => "?"%string end)
      (Template.ForNode "x" "xs" (Template.VariableNode "x"))
      (map_set (map_set empty_map "x" (VAtom "old"%string)) "xs"
               (VList [VAtom "a"; VAtom "b"]%string)) =
    Done ("ab"%string, data') /\
    data' "x"%string = Some (VAtom "b"%string).
Proof.
  assert (H1 : Template.is_plain (Template.VariableNode "x") = true)
    by reflexivity.
  assert (H2 : map_get (map_set (map_set empty_map "x" (VAtom "old"%string)) "xs"
                                (VList [VAtom "a"; VAtom "b"]%string)) "xs" =
               VList [VAtom "a"; VAtom "b"]%string) by reflexivity.
  split; [exact H1|]. split; [exact H2|].
  destruct (X14_ForNode_binds_the_variable
              (fun v : value string => match v with VAtom a => a | _ => "?"%string end)
              "x" "xs" (Template.VariableNode "x") _ _ H1 H2)
    as (data' & Hrun & _ & Hlast & _).
  exists data'. split; [exact Hrun|].
  apply Hlast. discriminate.
Defined.

Lemma X15_ForNode_over_its_variable_witness :
  map_get (map_set empty_map "xs" (VList [VAtom "a"; VNil; VAtom "c"]%string)) "xs" =
    VList [VAtom "a"; VNil; VAtom "c"]%string /\
  exists data' : GoMap string,
    Template.Render
      (fun v : value string => match v with VAtom a => a | _ => "?"%string end)
      (Template.ForNode "x" "xs" (Template.VariableNode "x"))
      (map_set empty_map "xs" (VList [VAtom "a"; VNil; VAtom "c"]%string)) =
    Done ("a?c"%string, data').
Proof.
  assert (H : map_get (map_set empty_map "xs"
                               (VList [VAtom "a"; VNil; VAtom "c"]%string)) "xs" =
              VList [VAtom "a"; VNil; VAtom "c"]%string) by reflexivity.
  split; [exact H|].
  exact (X15_ForNode_over_its_variable
           (fun v : value string => match v with VAtom a => a | _ => "?"%string end)
           "x" "xs" _ _ H).
Defined.

(** ** The rule engine *)

Section RulesProperties.

Context {atom : Type} (atom_eq : atom -> atom -> option bool).

Lemma map_get_set_nil (ctx : GoMap atom) (f k : string) :
  ctx f = None -> map_get (map_set ctx f VNil) k = map_get ctx k.
Proof.
  intros H. unfold map_get, map_set.
  destruct (String.eqb_spec k f) as [->|_]; [rewrite H|]; reflexivity.
Qed.

(** X16: to a rule a field that is missing from the context is a field
    that holds nil.  An [EqualRule] on a missing field never panics and
    holds exactly when the value it compares with is nil; and binding a
    missing field to nil changes the outcome of no rule. *)
Theorem X16_missing_field_is_nil (ctx : GoMap atom) (f : string) :
  ctx f = None ->
  (forall v : value atom,
      Rules.Evaluate atom_eq (Rules.EqualRule f v) ctx =
      Done (match v with VNil => true | _ => false end)) /\
  (forall r : Rules.Rule atom,
      Rules.Evaluate atom_eq r (map_set ctx f VNil) =
      Rules.Evaluate atom_eq r ctx).
Proof.
  intros H. split.
  - intros v. cbn [Rules.Evaluate]. unfold map_get. rewrite H.
    destruct v; reflexivity.
  - induction r as [|field v|l IHl r IHr|l IHl r IHr];
      cbn [Rules.Evaluate].
    + reflexivity.
    + rewrite (map_get_set_nil ctx f field H). reflexivity.
    + rewrite IHl, IHr. reflexivity.
    + rewrite IHl, IHr. reflexivity.
Qed.

End RulesProperties.

Lemma X16_missing_field_is_nil_witness :
  map_set empty_map "age" (VAtom 30) "name"%string = None /\
  Rules.Evaluate (fun a b : Z => Some (a =? b))
                 (Rules.EqualRule "name" VNil)
                 (map_set empty_map "age" (VAtom 30)) = Done true /\
  Rules.Evaluate (fun a b : Z => Some (a =? b))
                 (Rules.EqualRule "name" (VAtom 7))
                 (map_set empty_map "age" (VAtom 30)) = Done false.
Proof.
  assert (H : map_set empty_map "age" (VAtom 30) "name"%string = None)
    by reflexivity.
  split; [exact H|].
  pose proof (proj1 (X16_missing_field_is_nil
                       (fun a b : Z => Some (a =? b)) _ "name"%string H))
    as Hname.
  split; [exact (Hname VNil)|exact (Hname (VAtom 7))].
Defined.
